(** * easy_cfs_images: a shallow embedding of lib/easy_cfs_images.js

    The file embeds [ImageCollectionFactory] (constructor,
    [createImageCollection], the write-time transform of the variant stores,
    the upload-filter options and the direct-to-S3 [url] override) and
    [EasyImages], and proves what the specification says about them.

    JavaScript objects that the code mutates live in an explicit [World]:
    the factory objects (with their [stores] arrays, which the collections
    alias), [FS.File.prototype] and everything the code prints or hands to
    an external package. *)

From Stdlib Require Import ZArith Lia Ascii String.
From stdpp Require Import base list strings.

Local Open Scope string_scope.
Local Open Scope list_scope.

(** ** JavaScript values *)

(** The values that reach the code through its [options] arguments:
    [undefined], [null], booleans, strings and plain objects. *)
#[local] Set Warnings "-register-all".
Inductive jsval : Type :=
  | JUndefined
  | JNull
  | JBool (b : bool)
  | JStr (s : string)
  | JObj (fields : list (string * jsval)).
#[local] Set Warnings "register-all".

(** ToBoolean. *)
Definition truthy (v : jsval) : bool :=
  match v with
  | JUndefined | JNull => false
  | JBool b => b
  | JStr s => negb (String.eqb s "")
  | JObj _ => true
  end.

(** ToString, as applied by [+] when the other operand is a string. *)
Definition js_to_string (v : jsval) : string :=
  match v with
  | JUndefined => "undefined"
  | JNull => "null"
  | JBool true => "true"
  | JBool false => "false"
  | JStr s => s
  | JObj _ => "[object Object]"
  end.

Fixpoint assoc {A : Type} (k : string) (l : list (string * A)) : option A :=
  match l with
  | [] => None
  | (k', a) :: l' => if String.eqb k k' then Some a else assoc k l'
  end.

(** [v.k] for a value [v] that is neither [undefined] nor [null]; none of the
    keys the code reads is a property of a primitive's prototype. *)
Definition js_get (v : jsval) (k : string) : jsval :=
  match v with
  | JObj fields => default JUndefined (assoc k fields)
  | _ => JUndefined
  end.

(** [a && a.k]: the property is read only when [a] is truthy. *)
Definition js_and_get (a : jsval) (k : string) : jsval :=
  if truthy a then js_get a k else a.

(** [a || b]. *)
Definition js_or (a b : jsval) : jsval :=
  if truthy a then a else b.

(** [s + v] for a string [s]. *)
Definition js_concat (s : string) (v : jsval) : string :=
  s +:+ js_to_string v.

(** ** Data *)

(** A value of the [sizes] object: an array of numbers, or (ill-formed)
    [null] or [undefined], on which indexing throws. *)
Inductive dimensions : Type :=
  | DimsArray (elems : list Z)
  | DimsNull
  | DimsUndefined.

(** The [sizes] object in the enumeration order of its keys. *)
Abbreviation sizes_t := (list (string * dimensions)).

(** The closure passed as [transformWrite]: its code is fixed, its captured
    variables are [x] and [y] ([None] is [undefined]). *)
Record TransformWrite : Type := mkTransformWrite {
  tw_x : option Z;
  tw_y : option Z
}.

(** [new FS.Store.S3(name, options)]: the external constructor is kept as the
    record of its arguments. *)
Record StoreDefinition : Type := mkStore {
  s_name : string;
  s_bucket : string;
  s_folder : string;
  s_ACL : string;
  s_accessKeyId : string;
  s_secretAccessKey : string;
  s_transformWrite : option TransformWrite
}.

(** The factory object: its two properties, and the variables of the
    constructor call that [createImageCollection] closes over. *)
Record FactoryObj : Type := mkFactory {
  bucketUrl : string;
  stores : list StoreDefinition;
  fo_accessKeyId : string;
  fo_secretAccessKey : string;
  fo_bucketName : string;
  fo_acl : string
}.

(** What the code reads of an [FS.File]. [f_name] is the string that the
    call [self.name()] yields. *)
Record FileRecord : Type := mkFile {
  f_id : string;
  f_name : string;
  f_collectionName : string;
  f_size : Z;
  f_type : string;
  f_extension : string
}.

Inductive stream : Type := Stream (id : nat).

(** The value of the expression [fileObj.name]. On an [FS.File], [name] is a
    method (the override of [url] calls it, as [self.name()]); read without a
    call it is that function, the same for every file, and not a file
    name. *)
Inductive js_function : Type :=
  | FileNameMethod.

(** The calls chained on [gm(readStream, fileObj.name)]. *)
Inductive gm_op : Type :=
  | Resize (w h : option Z) (opt : string)
  | Gravity (g : string)
  | Crop (w h : option Z)
  | Quality (q : Z)
  | AutoOrient.

(** What the code does to the outside. *)
Inductive effect : Type :=
  | SetHeadersForGet (headers : list (string * string))
  | GmStreamPipe (src : stream) (filename : js_function) (ops : list gm_op) (dst : stream)
  | ConsoleWarn (msg : string)
  | Alert (msg : string)
  | Pipe (src dst : stream).

(** The function held by [FS.File.prototype.url] or [._url]: the method of
    the file package, or the override installed by the factory at [factory]. *)
Inductive url_method : Type :=
  | ServerMediated
  | DirectToS3 (factory : nat).

Inductive js_error : Type :=
  | TypeError (msg : string)
  | MeteorError (msg : string).

(** ** The world *)

Record World : Type := mkWorld {
  factories : list FactoryObj;
  proto_url : url_method;
  proto__url : option url_method;
  server_url : FileRecord -> jsval -> jsval;
  gm_isAvailable : bool;
  Meteor_isClient : bool;
  effects : list effect;
  easy_imageCollectionFactory : option nat
}.

Definition set_factories (fs : list FactoryObj) (w : World) : World :=
  mkWorld fs (proto_url w) (proto__url w) (server_url w) (gm_isAvailable w)
    (Meteor_isClient w) (effects w) (easy_imageCollectionFactory w).

Definition set_proto (u : url_method) (u' : option url_method) (w : World) : World :=
  mkWorld (factories w) u u' (server_url w) (gm_isAvailable w)
    (Meteor_isClient w) (effects w) (easy_imageCollectionFactory w).

Definition add_effect (e : effect) (w : World) : World :=
  mkWorld (factories w) (proto_url w) (proto__url w) (server_url w)
    (gm_isAvailable w) (Meteor_isClient w) (effects w ++ [e])
    (easy_imageCollectionFactory w).

Definition set_easy (o : option nat) (w : World) : World :=
  mkWorld (factories w) (proto_url w) (proto__url w) (server_url w)
    (gm_isAvailable w) (Meteor_isClient w) (effects w) o.

(** A world in which nothing of this file has run yet. *)
Definition pristine (srv : FileRecord -> jsval -> jsval) (gm client : bool) : World :=
  mkWorld [] ServerMediated None srv gm client [] None.

(** ** A state and exception monad *)

Inductive result (A : Type) : Type :=
  | Returned (a : A) (w : World)
  | Threw (e : js_error) (w : World).
Arguments Returned {A} a w.
Arguments Threw {A} e w.

Definition M (A : Type) : Type := World -> result A.

Definition ret {A : Type} (a : A) : M A := fun w => Returned a w.

Definition throw {A : Type} (e : js_error) : M A := fun w => Threw e w.

Definition bind {A B : Type} (m : M A) (k : A -> M B) : M B :=
  fun w =>
    match m w with
    | Returned a w' => k a w'
    | Threw e w' => Threw e w'
    end.

Declare Scope js_scope.
Delimit Scope js_scope with js.
Notation "x <- m ;; k" := (bind m (fun x => k))
  (at level 100, m at next level, right associativity) : js_scope.
Notation "m ;;; k" := (bind m (fun _ => k))
  (at level 100, right associativity) : js_scope.
Local Open Scope js_scope.

Definition get_world : M World := fun w => Returned w w.

Definition modify (f : World -> World) : M unit := fun w => Returned tt (f w).

Definition perform (e : effect) : M unit := modify (add_effect e).

(** [_.each] over the entries of an object. *)
Fixpoint each {A : Type} (f : A -> M unit) (l : list A) : M unit :=
  match l with
  | [] => ret tt
  | a :: l' => f a ;;; each f l'
  end.

Definition final_world {A : Type} (r : result A) : World :=
  match r with
  | Returned _ w => w
  | Threw _ w => w
  end.

(** ** The program *)

(** The [filter] option handed to [FS.Collection]. *)
Record Filter : Type := mkFilter {
  maxSize : Z;
  allow_contentTypes : list string;
  allow_extensions : list string;
  onInvalid : string -> M unit
}.

(** [new FS.Collection(name, {stores, filter})], kept as the record of its
    arguments. [c_stores] is a reference: the collection holds the very array
    [factory.stores] of the factory at that index, not a copy of it. *)
Record Collection : Type := mkCollection {
  c_name : string;
  c_stores : nat;
  c_filter : Filter
}.

(** [var MAX_FILE_SIZE] of the constructor, the same in every factory. *)
Definition MAX_FILE_SIZE : Z := 1024 * 1024 * 10.

(** [new ImageCollectionFactory(accessKeyId, secretAccessKey, bucketName,
    options)]; the result is the index of the new factory object. *)
Definition ImageCollectionFactory
    (accessKeyId secretAccessKey bucketName : string) (options : jsval) : M nat :=
  perform (SetHeadersForGet [("Cache-Control", "public, max-age=31536000")]) ;;;
  let region := js_or (js_and_get options "bucketRegion") (JStr "") in
  let region := if truthy region then JStr (js_concat "-" region) else region in
  let url := js_concat ("https://" +:+ bucketName) region +:+ ".s3.amazonaws.com/" in
  let publicRead := js_and_get options "publicRead" in
  let acl := if truthy publicRead then "public-read" else "private" in
  w <- get_world ;;
  let factory := length (factories w) in
  modify (set_factories
            (factories w ++
             [mkFactory url [] accessKeyId secretAccessKey bucketName acl])) ;;;
  (if truthy publicRead && truthy (JStr url)
   then modify (fun w' => set_proto (DirectToS3 factory) (Some (proto_url w')) w')
   else ret tt) ;;;
  ret factory.

(** The factory object at an index. An index that holds none stands for a
    call on something that is not a factory. *)
Definition the_factory (factory : nat) : M FactoryObj :=
  fun w =>
    match factories w !! factory with
    | Some f => Returned f w
    | None => Threw (TypeError "not a factory") w
    end.

(** The factory object with other contents in its [stores] array. *)
Definition with_stores (f : FactoryObj) (l : list StoreDefinition) : FactoryObj :=
  mkFactory (bucketUrl f) l (fo_accessKeyId f) (fo_secretAccessKey f)
    (fo_bucketName f) (fo_acl f).

(** [factory.stores.push(s)]. *)
Definition stores_push (factory : nat) (s : StoreDefinition) : M unit :=
  f <- the_factory factory ;;
  modify (fun w =>
            set_factories (<[factory := with_stores f (stores f ++ [s])]> (factories w)) w).

(** [dimensions[i]]. *)
Definition index (d : dimensions) (i : nat) : M (option Z) :=
  match d with
  | DimsArray elems => ret (elems !! i)
  | DimsNull => throw (TypeError "Cannot read property of null")
  | DimsUndefined => throw (TypeError "Cannot read property of undefined")
  end.

(** The first [new FS.Store.S3] of [createImageCollection]. *)
Definition original_store (f : FactoryObj) (collectionName : string) : StoreDefinition :=
  mkStore (collectionName +:+ "-original") (fo_bucketName f)
    (collectionName +:+ "-original") (fo_acl f) (fo_accessKeyId f)
    (fo_secretAccessKey f) None.

(** The [new FS.Store.S3] of the loop; [transformWrite] closes over [x], [y]. *)
Definition size_store (f : FactoryObj) (collectionName sizeName : string)
    (x y : option Z) : StoreDefinition :=
  mkStore ((collectionName +:+ "-") +:+ sizeName) (fo_bucketName f)
    ((collectionName +:+ "-") +:+ sizeName) (fo_acl f) (fo_accessKeyId f)
    (fo_secretAccessKey f) (Some (mkTransformWrite x y)).

(** The [onInvalid] function of the filter. *)
Definition image_onInvalid (message : string) : M unit :=
  w <- get_world ;;
  if Meteor_isClient w then perform (Alert message) else perform (ConsoleWarn message).

(** The [filter] option of [createImageCollection]. *)
Definition image_filter : Filter :=
  mkFilter MAX_FILE_SIZE ["image/*"] ["png"; "jpg"; "jpeg"; "gif"] image_onInvalid.

(** The function that [createImageCollection] passes to [_.each]; [f] holds
    the variables of the constructor that it closes over. *)
Definition each_size (factory : nat) (f : FactoryObj) (collectionName : string)
    (entry : string * dimensions) : M unit :=
  let (sizeName, dims) := entry in
  x <- index dims 0 ;;
  y <- index dims 1 ;;
  stores_push factory (size_store f collectionName sizeName x y).

(** [factory.createImageCollection(collectionName, sizes)]. *)
Definition createImageCollection (factory : nat) (collectionName : string)
    (sizes : sizes_t) : M Collection :=
  f <- the_factory factory ;;
  stores_push factory (original_store f collectionName) ;;;
  each (each_size factory f collectionName) sizes ;;;
  ret (mkCollection collectionName factory image_filter).

(** The array a collection's [stores] option refers to, as it is in [w]. *)
Definition collection_stores (w : World) (c : Collection) : list StoreDefinition :=
  match factories w !! c_stores c with
  | Some f => stores f
  | None => []
  end.

(** The chain of calls between [gm(...)] and [.stream()]. *)
Definition gm_chain (x y : option Z) : list gm_op :=
  [Resize x y "^"; Gravity "Center"; Crop x y; Quality 100; AutoOrient].

(** The body of [transformWrite]. The second argument of [gm] is
    [fileObj.name], read and not called. *)
Definition transformWrite (t : TransformWrite) (fileObj : FileRecord)
    (readStream writeStream : stream) : M unit :=
  w <- get_world ;;
  if gm_isAvailable w
  then perform (GmStreamPipe readStream FileNameMethod
                  (gm_chain (tw_x t) (tw_y t)) writeStream)
  else perform (ConsoleWarn "GraphicsMagick/ImageMagick not available").

(** [store + '/' + self.collectionName + '/' + self._id + '-' + self.name()]. *)
Definition fileKey (store : jsval) (self : FileRecord) : string :=
  (((((js_to_string store +:+ "/") +:+ f_collectionName self) +:+ "/")
      +:+ f_id self) +:+ "-") +:+ f_name self.

(** A call of a [url] method on [self]. The override looks [self._url] up on
    the prototype when it runs; [fuel] bounds the depth of these calls, and
    [None] means that it did not suffice. *)
Fixpoint call_url (fuel : nat) (m : url_method) (self : FileRecord)
    (options : jsval) (w : World) : option (result jsval) :=
  match fuel with
  | O => None
  | S fuel' =>
      match m with
      | ServerMediated => Some (Returned (server_url w self options) w)
      | DirectToS3 factory =>
          let store := js_and_get options "store" in
          match proto__url w with
          | None => Some (Threw (TypeError "self._url is not a function") w)
          | Some old =>
              match call_url fuel' old self options w with
              | None => None
              | Some (Threw e w') => Some (Threw e w')
              | Some (Returned v w') =>
                  if truthy v
                  then match factories w' !! factory with
                       | Some f => Some (Returned (JStr (bucketUrl f +:+ fileKey store self)) w')
                       | None => Some (Threw (TypeError "not a factory") w')
                       end
                  else Some (Returned JNull w')
              end
          end
      end
  end.

(** [self.url(options)]. *)
Definition file_url (fuel : nat) (self : FileRecord) (options : jsval)
    (w : World) : option (result jsval) :=
  call_url fuel (proto_url w) self options w.

(** The [options] argument of [EasyImages.configure]: [undefined] (also a
    call without argument), [null], or an object. A property of the object
    holds a factory ([Some]) or a falsy value ([None]). *)
Inductive easy_options : Type :=
  | EasyUndefined
  | EasyNull
  | EasyObject (fields : list (string * option nat)).

(** [required(options, name)] of [EasyImages]. Reading [options[name]]
    throws when [options] is [undefined] or [null]. *)
Definition required (options : easy_options) (name : string) : M nat :=
  match options with
  | EasyUndefined => throw (TypeError "Cannot read property of undefined")
  | EasyNull => throw (TypeError "Cannot read property of null")
  | EasyObject fields =>
      match assoc name fields with
      | Some (Some v) => ret v
      | _ =>
          throw (MeteorError
                   (("Missing required parameter '" +:+ name) +:+
                    "' for EasyImages configuration"))
      end
  end.

(** [EasyImages.configure(options)]. *)
Definition EasyImages_configure (options : easy_options) : M unit :=
  f <- required options "imageCollectionFactory" ;;
  modify (set_easy (Some f)).

(** [EasyImages.bucketUrl()]. *)
Definition EasyImages_bucketUrl : M string :=
  w <- get_world ;;
  match easy_imageCollectionFactory w with
  | Some factory => f <- the_factory factory ;; ret (bucketUrl f)
  | None => throw (TypeError "Cannot read property 'bucketUrl' of undefined")
  end.

(** ** The upload filter *)

(** [*] in a content-type pattern stands for any run of characters. *)
Fixpoint glob (p : string) : string -> bool :=
  match p with
  | EmptyString => fun s => String.eqb s ""
  | String c p' =>
      if Ascii.eqb c "*"
      then fix star (s : string) : bool :=
             glob p' s ||
             match s with
             | EmptyString => false
             | String _ s' => star s'
             end
      else fun s =>
             match s with
             | EmptyString => false
             | String d s' => Ascii.eqb c d && glob p' s'
             end
  end.

Definition lower_ascii (c : ascii) : ascii :=
  let n := nat_of_ascii c in
  if (65 <=? n)%nat && (n <=? 90)%nat then ascii_of_nat (n + 32) else c.

Fixpoint lower (s : string) : string :=
  match s with
  | EmptyString => EmptyString
  | String c s' => String (lower_ascii c) (lower s')
  end.

(** Modelled from the spec: the evaluation of the filter by [FS.Collection],
    which is not under src/ (the code only builds the filter options). The
    three checks are made in the order of the spec, the first that fails
    calls [onInvalid] with a message naming the rule, and the file is
    accepted when none fails. *)
Definition accept (flt : Filter) (file : FileRecord) : M bool :=
  if (maxSize flt <? f_size file)%Z
  then onInvalid flt "file size exceeds the maximum size" ;;; ret false
  else if negb (existsb (fun p => glob p (f_type file)) (allow_contentTypes flt))
  then onInvalid flt "content type is not allowed" ;;; ret false
  else if negb (existsb (String.eqb (lower (f_extension file))) (allow_extensions flt))
  then onInvalid flt "extension is not allowed" ;;; ret false
  else ret true.

(** Modelled from the spec: the stores to which an incoming file is handed,
    all the stores of the collection when the filter accepts it and none
    otherwise ([FS.Collection]'s insert is not under src/). *)
Definition upload (c : Collection) (file : FileRecord) : M (list StoreDefinition) :=
  ok <- accept (c_filter c) file ;;
  if ok
  then w <- get_world ;; ret (collection_stores w c)
  else ret [].

(** Modelled from the spec: the write path of one store, which the storage
    adapter runs and is not under src/. A store without [transformWrite]
    receives the source stream as it is; one with [transformWrite] receives
    what that function pipes. *)
Definition store_write (s : StoreDefinition) (fileObj : FileRecord)
    (readStream writeStream : stream) : M unit :=
  match s_transformWrite s with
  | None => perform (Pipe readStream writeStream)
  | Some t => transformWrite t fileObj readStream writeStream
  end.

(** The effects of a run that write to [dst]. *)
Definition writes_to (dst : stream) (e : effect) : bool :=
  match e, dst with
  | GmStreamPipe _ _ _ (Stream d), Stream d' => Nat.eqb d d'
  | Pipe _ (Stream d), Stream d' => Nat.eqb d d'
  | _, _ => false
  end.

(** ** Vocabulary of the statements *)

Definition is_array (d : dimensions) : bool :=
  match d with
  | DimsArray _ => true
  | _ => false
  end.

(** Every value of [sizes] is an array. *)
Definition well_formed (sizes : sizes_t) : bool :=
  forallb (fun entry : string * dimensions => is_array entry.2) sizes.

(** The store that one entry of [sizes] gives rise to. *)
Definition planned_store (f : FactoryObj) (collectionName : string)
    (entry : string * dimensions) : StoreDefinition :=
  match entry.2 with
  | DimsArray elems =>
      size_store f collectionName entry.1 (elems !! 0%nat) (elems !! 1%nat)
  | _ => size_store f collectionName entry.1 None None
  end.

(** The stores that one call of [createImageCollection] appends. *)
Definition plan (f : FactoryObj) (collectionName : string) (sizes : sizes_t)
    : list StoreDefinition :=
  original_store f collectionName :: map (planned_store f collectionName) sizes.

(** What the specification calls an invalid configuration: an empty
    collection name, a width or height that is not positive, or two stores
    of the plan with one name. *)
Definition positive_dims (d : dimensions) : bool :=
  match d with
  | DimsArray (w :: h :: _) => (0 <? w)%Z && (0 <? h)%Z
  | _ => false
  end.

Fixpoint has_duplicate (l : list string) : bool :=
  match l with
  | [] => false
  | a :: l' => existsb (String.eqb a) l' || has_duplicate l'
  end.

Definition invalid_configuration (collectionName : string) (sizes : sizes_t) : bool :=
  String.eqb collectionName ""
  || negb (forallb (fun entry : string * dimensions => positive_dims entry.2) sizes)
  || has_duplicate
       ((collectionName +:+ "-original")
        :: map (fun entry : string * dimensions => (collectionName +:+ "-") +:+ entry.1) sizes).

(** The methods on the prototype refer to factories that exist. *)
Definition method_ok (w : World) (m : url_method) : bool :=
  match m with
  | ServerMediated => true
  | DirectToS3 factory => (factory <? length (factories w))%nat
  end.

Definition world_ok (w : World) : bool :=
  method_ok w (proto_url w)
  && match proto__url w with
     | Some m => method_ok w m
     | None => true
     end.

(** The calls that the code offers at run time. *)
Inductive api_call : Type :=
  | NewFactory (accessKeyId secretAccessKey bucketName : string) (options : jsval)
  | CreateImageCollection (factory : nat) (collectionName : string) (sizes : sizes_t)
  | TransformWriteCall (t : TransformWrite) (fileObj : FileRecord) (readStream writeStream : stream)
  | OnInvalid (message : string)
  | Url (fuel : nat) (self : FileRecord) (options : jsval)
  | Configure (options : easy_options)
  | BucketUrl.

(** The world after a call, whether it returned or threw. *)
Definition run_api (c : api_call) (w : World) : World :=
  match c with
  | NewFactory a s b o => final_world (ImageCollectionFactory a s b o w)
  | CreateImageCollection k n z => final_world (createImageCollection k n z w)
  | TransformWriteCall t f r d => final_world (transformWrite t f r d w)
  | OnInvalid m => final_world (image_onInvalid m w)
  | Url fuel self o =>
      match file_url fuel self o w with
      | Some r => final_world r
      | None => w
      end
  | Configure o => final_world (EasyImages_configure o w)
  | BucketUrl => final_world (EasyImages_bucketUrl w)
  end.

Definition run_apis (cs : list api_call) (w : World) : World :=
  fold_left (fun w' c => run_api c w') cs w.

Definition bucketUrl_of (w : World) (factory : nat) : option string :=
  bucketUrl <$> factories w !! factory.

(** The file passes the three checks of the upload policy. *)
Definition acceptable (file : FileRecord) : Prop :=
  (f_size file <= 10485760)%Z
  /\ (exists rest, f_type file = "image/" +:+ rest)
  /\ In (lower (f_extension file)) ["png"; "jpg"; "jpeg"; "gif"].

(** ** The geometry of the image tool *)

(** An image tool gives each call of the chain a meaning on images;
    [gm_run] applies the calls in the order of the chain. *)
Definition gm_run {image : Type} (gm_apply : gm_op -> image -> image)
    (ops : list gm_op) (img : image) : image :=
  fold_left (fun i op => gm_apply op i) ops img.

Definition covers (box size : Z * Z) : Prop :=
  (box.1 <= size.1)%Z /\ (box.2 <= size.2)%Z.

(** EXIF orientations 5 to 8 say that the stored frame lies on its side:
    turning the image upright exchanges its width and its height. *)
Definition transposing (orientation : Z) : bool :=
  (5 <=? orientation)%Z && (orientation <=? 8)%Z.

Definition transpose (size : Z * Z) : Z * Z := (size.2, size.1).

(** An image as far as the chain goes: the size of the stored frame and the
    EXIF orientation. *)
Record picture : Type := mkPicture {
  p_size : Z * Z;
  p_orientation : Z
}.

(** A tool on pictures, each call acting on the stored frame in the order of
    the chain: [resize] with [^] scales by the larger of the two ratios and
    rounds, [crop] cuts to the box, [autoOrient] turns the frame upright and
    resets the orientation, the other calls keep size and orientation. *)
Definition round_div (a b : Z) : Z := ((2 * a + b) / (2 * b))%Z.

Definition resize_fill (x y : Z) (size : Z * Z) : Z * Z :=
  if (y * size.1 <=? x * size.2)%Z
  then (x, round_div (size.2 * x) size.1)
  else (round_div (size.1 * y) size.2, y).

Definition size_apply (op : gm_op) (p : picture) : picture :=
  match op with
  | Resize (Some x) (Some y) opt =>
      if String.eqb opt "^"
      then mkPicture (resize_fill x y (p_size p)) (p_orientation p)
      else p
  | Crop (Some x) (Some y) =>
      mkPicture (Z.min x (p_size p).1, Z.min y (p_size p).2) (p_orientation p)
  | AutoOrient =>
      mkPicture (if transposing (p_orientation p) then transpose (p_size p) else p_size p) 1
  | _ => p
  end.

(** [w'] keeps the [bucketUrl] of every factory of [w]. *)
Definition urls_kept (w w' : World) : Prop :=
  forall (k : nat) (u : string), bucketUrl_of w k = Some u -> bucketUrl_of w' k = Some u.

(** [w'] has the prototype of [w], and as many factories. *)
Definition proto_kept (w w' : World) : Prop :=
  proto_url w' = proto_url w
  /\ proto__url w' = proto__url w
  /\ length (factories w') = length (factories w).

(** A computation whose final world, however it ends, is related by [R] to
    the world it started in. *)
Definition preserves (R : World -> World -> Prop) {A : Type} (m : M A) : Prop :=
  forall w : World, R w (final_world (m w)).

(** A relation between worlds that the steps of the program keep: it is a
    preorder, and it holds across an effect, a push onto the stores of a
    factory and a configuration of [EasyImages]. *)
Definition frame (R : World -> World -> Prop) : Prop :=
  (forall w, R w w)
  /\ (forall w1 w2 w3, R w1 w2 -> R w2 w3 -> R w1 w3)
  /\ (forall e w, R w (add_effect e w))
  /\ (forall w k g s,
        factories w !! k = Some g ->
        R w (set_factories (<[k := with_stores g (stores g ++ [s])]> (factories w)) w))
  /\ (forall o w, R w (set_easy o w)).

(** [w'] differs from [w] at most in the [stores] array of the factory at
    [k], which has kept what it held and may hold more. *)
Definition only_stores_grow (k : nat) (w w' : World) : Prop :=
  proto_url w' = proto_url w
  /\ proto__url w' = proto__url w
  /\ server_url w' = server_url w
  /\ gm_isAvailable w' = gm_isAvailable w
  /\ Meteor_isClient w' = Meteor_isClient w
  /\ effects w' = effects w
  /\ easy_imageCollectionFactory w' = easy_imageCollectionFactory w
  /\ length (factories w') = length (factories w)
  /\ (forall j : nat, j <> k -> factories w' !! j = factories w !! j)
  /\ (forall g : FactoryObj,
        factories w !! k = Some g ->
        exists more : list StoreDefinition,
          factories w' !! k = Some (with_stores g (stores g ++ more))).

(** The factory that the options of a [configure] call supply, if any. *)
Definition supplied (options : easy_options) : option nat :=
  match options with
  | EasyObject fields =>
      match assoc "imageCollectionFactory" fields with
      | Some (Some k) => Some k
      | _ => None
      end
  | _ => None
  end.

(** The factory supplied by the last call of a sequence that supplied one,
    and [before] if none did. *)
Definition last_supplied (calls : list easy_options) (before : option nat) : option nat :=
  fold_left (fun acc options =>
               match supplied options with
               | Some k => Some k
               | None => acc
               end) calls before.

(** ** Lemmas on the world and the monad *)

Lemma set_factories_id (w : World) : set_factories (factories w) w = w.
Proof. by destruct w. Qed.

Lemma with_stores_id (f : FactoryObj) : with_stores f (stores f) = f.
Proof. by destruct f. Qed.

Lemma stores_push_at (w : World) (k : nat) (g : FactoryObj) (s : StoreDefinition) :
  factories w !! k = Some g ->
  stores_push k s w =
  Returned tt (set_factories (<[k := with_stores g (stores g ++ [s])]> (factories w)) w).
Proof.
  intros Hk. unfold stores_push, bind, the_factory. by rewrite Hk.
Qed.

Lemma each_size_array (k : nat) (f : FactoryObj) (name sizeName : string)
    (elems : list Z) (w : World) :
  each_size k f name (sizeName, DimsArray elems) w =
  stores_push k (planned_store f name (sizeName, DimsArray elems)) w.
Proof. reflexivity. Qed.

(** On arrays the loop appends the planned stores, in order. *)
Lemma each_well_formed (k : nat) (f : FactoryObj) (name : string) (sizes : sizes_t) :
  well_formed sizes = true ->
  forall (w : World) (g : FactoryObj),
    factories w !! k = Some g ->
    each (each_size k f name) sizes w =
    Returned tt
      (set_factories
         (<[k := with_stores g (stores g ++ map (planned_store f name) sizes)]> (factories w))
         w).
Proof.
  induction sizes as [| [sizeName dims] sizes IH]; intros Hwf w g Hk.
  - cbn [each map]. unfold ret. rewrite app_nil_r, with_stores_id.
    by rewrite list_insert_id, set_factories_id.
  - cbn [well_formed forallb] in Hwf. apply andb_prop in Hwf as [Hd Hwf].
    destruct dims as [elems | |]; try discriminate.
    cbn [each]. unfold bind at 1. rewrite each_size_array.
    rewrite (stores_push_at _ _ _ _ Hk).
    pose proof (lookup_lt_Some _ _ _ Hk) as Hlt.
    erewrite IH; [| exact Hwf |].
    2:{ cbn [set_factories factories]. by apply list_lookup_insert_eq. }
    cbn [set_factories factories proto_url proto__url server_url gm_isAvailable
         Meteor_isClient effects easy_imageCollectionFactory with_stores stores
         bucketUrl fo_accessKeyId fo_secretAccessKey fo_bucketName fo_acl map].
    rewrite list_insert_insert_eq.
    by rewrite <- app_assoc.
Qed.

(** At the first value that is not an array the loop throws, and the stores
    of the entries before it stay in the array. *)
Lemma each_ill_formed (k : nat) (f : FactoryObj) (name : string)
    (good : sizes_t) (sizeName : string) (bad : dimensions) (rest : sizes_t) :
  well_formed good = true ->
  is_array bad = false ->
  forall (w : World) (g : FactoryObj),
    factories w !! k = Some g ->
    exists msg : string,
      each (each_size k f name) (good ++ (sizeName, bad) :: rest) w =
      Threw (TypeError msg)
        (set_factories
           (<[k := with_stores g (stores g ++ map (planned_store f name) good)]> (factories w))
           w).
Proof.
  intros Hwf Hbad. induction good as [| [n dims] good IH]; intros w g Hk.
  - cbn [app map]. rewrite app_nil_r, with_stores_id, list_insert_id, set_factories_id
      by exact Hk.
    destruct bad as [elems | |]; [discriminate | |]; eexists; reflexivity.
  - cbn [well_formed forallb] in Hwf. apply andb_prop in Hwf as [Hd Hwf].
    destruct dims as [elems | |]; try discriminate.
    pose proof (lookup_lt_Some _ _ _ Hk) as Hlt.
    destruct (IH Hwf
                (set_factories
                   (<[k := with_stores g
                             (stores g ++ [planned_store f name (n, DimsArray elems)])]>
                      (factories w)) w)
                (with_stores g (stores g ++ [planned_store f name (n, DimsArray elems)])))
      as [msg Hmsg].
    { cbn [set_factories factories]. by apply list_lookup_insert_eq. }
    exists msg. cbn [app each]. unfold bind at 1. rewrite each_size_array.
    rewrite (stores_push_at _ _ _ _ Hk). rewrite Hmsg.
    cbn [set_factories factories proto_url proto__url server_url gm_isAvailable
         Meteor_isClient effects easy_imageCollectionFactory with_stores stores
         bucketUrl fo_accessKeyId fo_secretAccessKey fo_bucketName fo_acl map].
    rewrite list_insert_insert_eq.
    by rewrite <- app_assoc.
Qed.

Lemma createImageCollection_returns (k : nat) (f : FactoryObj) (name : string)
    (sizes : sizes_t) (w : World) :
  factories w !! k = Some f ->
  well_formed sizes = true ->
  createImageCollection k name sizes w =
  Returned (mkCollection name k image_filter)
    (set_factories
       (<[k := with_stores f (stores f ++ plan f name sizes)]> (factories w)) w).
Proof.
  intros Hk Hwf. unfold createImageCollection, bind at 1, the_factory.
  rewrite Hk. unfold bind at 1. rewrite (stores_push_at _ _ _ _ Hk).
  pose proof (lookup_lt_Some _ _ _ Hk) as Hlt.
  unfold bind, ret. erewrite each_well_formed; [| exact Hwf |].
  2:{ cbn [set_factories factories]. by apply list_lookup_insert_eq. }
  cbn [set_factories factories proto_url proto__url server_url gm_isAvailable
       Meteor_isClient effects easy_imageCollectionFactory with_stores stores
       bucketUrl fo_accessKeyId fo_secretAccessKey fo_bucketName fo_acl].
  rewrite list_insert_insert_eq. unfold plan.
  by rewrite <- app_assoc.
Qed.

(** What the constructor returns and what it leaves of the world. *)
Lemma ImageCollectionFactory_spec (a s b : string) (o : jsval) (w : World) :
  exists (fo : FactoryObj) (w' : World),
    ImageCollectionFactory a s b o w = Returned (length (factories w)) w'
    /\ factories w' = factories w ++ [fo]
    /\ stores fo = []
    /\ bucketUrl fo =
       js_concat ("https://" +:+ b)
         (if truthy (js_or (js_and_get o "bucketRegion") (JStr ""))
          then JStr (js_concat "-" (js_or (js_and_get o "bucketRegion") (JStr "")))
          else js_or (js_and_get o "bucketRegion") (JStr ""))
       +:+ ".s3.amazonaws.com/"
    /\ fo_acl fo = (if truthy (js_and_get o "publicRead") then "public-read" else "private")
    /\ fo_bucketName fo = b /\ fo_accessKeyId fo = a /\ fo_secretAccessKey fo = s
    /\ proto_url w' =
       (if truthy (js_and_get o "publicRead") then DirectToS3 (length (factories w))
        else proto_url w)
    /\ proto__url w' =
       (if truthy (js_and_get o "publicRead") then Some (proto_url w) else proto__url w)
    /\ server_url w' = server_url w
    /\ gm_isAvailable w' = gm_isAvailable w
    /\ Meteor_isClient w' = Meteor_isClient w
    /\ easy_imageCollectionFactory w' = easy_imageCollectionFactory w
    /\ effects w' =
       effects w ++ [SetHeadersForGet [("Cache-Control", "public, max-age=31536000")]].
Proof.
  unfold ImageCollectionFactory, bind, perform, modify, get_world, ret.
  cbn [add_effect set_factories factories proto_url proto__url server_url
       gm_isAvailable Meteor_isClient effects easy_imageCollectionFactory].
  assert (Hurl : forall u : string, truthy (JStr (u +:+ ".s3.amazonaws.com/")) = true).
  { intros u. cbn [truthy]. induction u as [| c u IH]; [reflexivity |].
    by destruct (String c u +:+ ".s3.amazonaws.com/") eqn:E. }
  rewrite Hurl, andb_true_r.
  destruct (truthy (js_and_get o "publicRead")); eexists _, _;
    (split; [reflexivity |]); cbn; repeat split; reflexivity.
Qed.

Lemma append_assoc (s1 s2 s3 : string) : (s1 +:+ s2) +:+ s3 = s1 +:+ s2 +:+ s3.
Proof.
  induction s1 as [| c s1 IH]; [reflexivity |].
  change (String c ((s1 +:+ s2) +:+ s3) = String c (s1 +:+ s2 +:+ s3)).
  by f_equal.
Qed.

Lemma lookup_map {A B : Type} (f : A -> B) (l : list A) (i : nat) :
  map f l !! i = f <$> l !! i.
Proof.
  revert i. induction l as [| a l IH]; intros [| i]; try reflexivity. apply IH.
Qed.

Lemma lookup_new_factory (l : list FactoryObj) (fo : FactoryObj) :
  (l ++ [fo]) !! length l = Some fo.
Proof. by rewrite list_lookup_middle. Qed.

Lemma collection_stores_at (w : World) (k : nat) (g : FactoryObj) (name : string)
    (flt : Filter) :
  factories w !! k = Some g ->
  collection_stores w (mkCollection name k flt) = stores g.
Proof. intros Hk. unfold collection_stores. cbn [c_stores]. by rewrite Hk. Qed.

Lemma collection_stores_after (w : World) (k : nat) (g : FactoryObj) (name : string)
    (flt : Filter) :
  k < length (factories w) ->
  collection_stores (set_factories (<[k := g]> (factories w)) w) (mkCollection name k flt)
  = stores g.
Proof.
  intros Hlt. unfold collection_stores. cbn [c_stores set_factories factories].
  by rewrite list_lookup_insert_eq.
Qed.

(** ** The stores of a collection *)

(** C1: on a factory that was just constructed, [createImageCollection]
    returns a collection whose stores are exactly one more than the entries of
    [sizes]: first the store named [collectionName-original], without
    transform, then for each entry, in order, the store named
    [collectionName-sizeName] whose transform holds that entry's width and
    height. *)
Theorem createImageCollection_fresh_plan
    (a s b : string) (o : jsval) (name : string) (sizes : sizes_t) (w : World) :
  well_formed sizes = true ->
  exists (fo : FactoryObj) (w1 : World) (c : Collection) (w2 : World),
    ImageCollectionFactory a s b o w = Returned (length (factories w)) w1
    /\ factories w1 !! length (factories w) = Some fo
    /\ createImageCollection (length (factories w)) name sizes w1 = Returned c w2
    /\ collection_stores w2 c
       = original_store fo name :: map (planned_store fo name) sizes
    /\ length (collection_stores w2 c) = S (length sizes)
    /\ s_name (original_store fo name) = name +:+ "-original"
    /\ s_transformWrite (original_store fo name) = None
    /\ forall (i : nat) (sizeName : string) (width height : Z) (rest : list Z),
         sizes !! i = Some (sizeName, DimsArray (width :: height :: rest)) ->
         exists st : StoreDefinition,
           collection_stores w2 c !! S i = Some st
           /\ s_name st = name +:+ "-" +:+ sizeName
           /\ s_transformWrite st = Some (mkTransformWrite (Some width) (Some height)).
Proof.
  intros Hwf.
  destruct (ImageCollectionFactory_spec a s b o w)
    as (fo & w1 & Hnew & Hfs & Hst & _).
  assert (Hk : factories w1 !! length (factories w) = Some fo).
  { rewrite Hfs. apply lookup_new_factory. }
  pose proof (createImageCollection_returns _ _ name _ _ Hk Hwf) as Hc.
  pose proof (lookup_lt_Some _ _ _ Hk) as Hlt.
  eexists fo, w1, _, _. split; [exact Hnew |]. split; [exact Hk |].
  split; [exact Hc |].
  rewrite collection_stores_after by exact Hlt.
  cbn [with_stores stores]. rewrite Hst, app_nil_l. unfold plan.
  split; [reflexivity |]. split; [by cbn [length]; rewrite length_map |].
  split; [reflexivity |]. split; [reflexivity |].
  intros i sizeName width height rest Hi.
  exists (planned_store fo name (sizeName, DimsArray (width :: height :: rest))).
  split.
  - change (map (planned_store fo name) sizes !! i = Some
              (planned_store fo name (sizeName, DimsArray (width :: height :: rest)))).
    by rewrite lookup_map, Hi.
  - split; [| reflexivity].
    cbn [planned_store size_store s_name fst snd]. apply append_assoc.
Qed.

Lemma createImageCollection_fresh_plan_witness :
  exists (fo : FactoryObj) (w1 : World) (c : Collection) (w2 : World),
    ImageCollectionFactory "key" "secret" "photos" JUndefined
      (pristine (fun _ _ => JNull) true false) = Returned 0%nat w1
    /\ factories w1 !! 0%nat = Some fo
    /\ createImageCollection 0 "myImages"
         [("thumbnail", DimsArray [300; 300]%Z); ("normal", DimsArray [800; 400]%Z)] w1
       = Returned c w2
    /\ map s_name (collection_stores w2 c)
       = ["myImages-original"; "myImages-thumbnail"; "myImages-normal"].
Proof.
  destruct (createImageCollection_fresh_plan "key" "secret" "photos" JUndefined
              "myImages"
              [("thumbnail", DimsArray [300; 300]%Z); ("normal", DimsArray [800; 400]%Z)]
              (pristine (fun _ _ => JNull) true false) eq_refl)
    as (fo & w1 & c & w2 & H1 & H2 & H3 & H4 & _).
  exists fo, w1, c, w2. repeat split; try assumption.
  rewrite H4. reflexivity.
Defined.

(** ** No validation, and one array for all collections *)

(** C4, as stated, fails: an empty collection name, a width and height that
    are not positive and a variant whose store takes the name of the original
    are all invalid configurations in the sense of the specification, and for
    each of them [createImageCollection] returns a collection. *)
Lemma createImageCollection_fails_counterexample :
  let w := final_world
             (ImageCollectionFactory "key" "secret" "photos" JUndefined
                (pristine (fun _ _ => JNull) true false)) in
  (invalid_configuration "" [("thumb", DimsArray [50; 50]%Z)] = true
   /\ exists c w',
        createImageCollection 0 "" [("thumb", DimsArray [50; 50]%Z)] w = Returned c w'
        /\ map s_name (collection_stores w' c) = ["-original"; "-thumb"])
  /\ (invalid_configuration "avatars" [("thumb", DimsArray [0; -5]%Z)] = true
      /\ exists c w',
           createImageCollection 0 "avatars" [("thumb", DimsArray [0; -5]%Z)] w
           = Returned c w'
           /\ map s_transformWrite (collection_stores w' c)
              = [None; Some (mkTransformWrite (Some 0%Z) (Some (-5)%Z))])
  /\ (invalid_configuration "avatars" [("original", DimsArray [50; 50]%Z)] = true
      /\ exists c w',
           createImageCollection 0 "avatars" [("original", DimsArray [50; 50]%Z)] w
           = Returned c w'
           /\ map s_name (collection_stores w' c)
              = ["avatars-original"; "avatars-original"]).
Proof.
  cbv zeta. repeat split; try reflexivity; eexists _, _; split; reflexivity.
Qed.

(** C4, amended: [createImageCollection] validates nothing. Whenever every
    value of [sizes] is an array it returns a collection, whatever the
    collection name, the widths and heights and the variant names are, and
    the array of the factory has grown by the planned stores. It throws only
    at a value of [sizes] that is [null] or [undefined], with a [TypeError],
    and then the stores of the entries before that value stay in the array
    of the factory. *)
Theorem createImageCollection_validates_nothing
    (k : nat) (f : FactoryObj) (name : string) (sizes : sizes_t) (w : World) :
  factories w !! k = Some f ->
  (well_formed sizes = true ->
   exists (c : Collection) (w' : World),
     createImageCollection k name sizes w = Returned c w'
     /\ collection_stores w' c = stores f ++ plan f name sizes)
  /\ (forall (good : sizes_t) (sizeName : string) (bad : dimensions) (rest : sizes_t),
        sizes = good ++ (sizeName, bad) :: rest ->
        well_formed good = true ->
        is_array bad = false ->
        exists (msg : string) (w' : World),
          createImageCollection k name sizes w = Threw (TypeError msg) w'
          /\ stores <$> factories w' !! k = Some (stores f ++ plan f name good)).
Proof.
  intros Hk. pose proof (lookup_lt_Some _ _ _ Hk) as Hlt. split.
  - intros Hwf. eexists _, _. split.
    + by apply createImageCollection_returns.
    + by rewrite collection_stores_after.
  - intros good sizeName bad rest -> Hwf Hbad.
    unfold createImageCollection, bind at 1, the_factory. rewrite Hk.
    unfold bind at 1. rewrite (stores_push_at _ _ _ _ Hk).
    destruct (each_ill_formed k f name good sizeName bad rest Hwf Hbad
                (set_factories
                   (<[k := with_stores f (stores f ++ [original_store f name])]>
                      (factories w)) w)
                (with_stores f (stores f ++ [original_store f name])))
      as [msg Hmsg].
    { cbn [set_factories factories]. by apply list_lookup_insert_eq. }
    exists msg. eexists. unfold bind. rewrite Hmsg. split; [reflexivity |].
    cbn [set_factories factories with_stores stores].
    rewrite list_insert_insert_eq, list_lookup_insert_eq by exact Hlt.
    cbn [fmap option_fmap option_map stores]. unfold plan.
    by rewrite <- app_assoc.
Qed.

Lemma createImageCollection_validates_nothing_witness :
  let w := final_world
             (ImageCollectionFactory "key" "secret" "photos" JUndefined
                (pristine (fun _ _ => JNull) true false)) in
  exists (msg : string) (w' : World),
    createImageCollection 0 "avatars"
      [("thumb", DimsArray [50; 50]%Z); ("large", DimsNull); ("tiny", DimsArray [5; 5]%Z)] w
    = Threw (TypeError msg) w'
    /\ map s_name <$> (stores <$> factories w' !! 0%nat)
       = Some ["avatars-original"; "avatars-thumb"].
Proof.
  cbv zeta.
  destruct (createImageCollection_validates_nothing 0
              (mkFactory "https://photos.s3.amazonaws.com/" [] "key" "secret" "photos"
                 "private")
              "avatars"
              [("thumb", DimsArray [50; 50]%Z); ("large", DimsNull);
               ("tiny", DimsArray [5; 5]%Z)]
              (final_world
                 (ImageCollectionFactory "key" "secret" "photos" JUndefined
                    (pristine (fun _ _ => JNull) true false)))
              eq_refl) as [_ H].
  destruct (H [("thumb", DimsArray [50; 50]%Z)] "large" DimsNull
              [("tiny", DimsArray [5; 5]%Z)] eq_refl eq_refl eq_refl)
    as (msg & w' & Hc & Hs).
  exists msg, w'. split; [exact Hc |]. rewrite Hs. reflexivity.
Defined.

(** C5, as stated, fails: two calls with the same name and sizes on one
    factory do not give the returned collections the same list of stores. The
    first collection is returned with two stores, the second with four; and
    since both hold the one array of the factory, the first holds four as
    well once the second call has run. *)
Lemma createImageCollection_twice_counterexample :
  let w := final_world
             (ImageCollectionFactory "key" "secret" "photos" JUndefined
                (pristine (fun _ _ => JNull) true false)) in
  exists c1 w1 c2 w2,
    createImageCollection 0 "avatars" [("thumb", DimsArray [50; 50]%Z)] w = Returned c1 w1
    /\ createImageCollection 0 "avatars" [("thumb", DimsArray [50; 50]%Z)] w1 = Returned c2 w2
    /\ map s_name (collection_stores w1 c1) = ["avatars-original"; "avatars-thumb"]
    /\ map s_name (collection_stores w2 c2)
       = ["avatars-original"; "avatars-thumb"; "avatars-original"; "avatars-thumb"]
    /\ collection_stores w1 c1 <> collection_stores w2 c2
    /\ collection_stores w2 c1 = collection_stores w2 c2.
Proof.
  cbv zeta. eexists _, _, _, _.
  split; [reflexivity |]. split; [reflexivity |].
  split; [reflexivity |]. split; [reflexivity |].
  split; [| reflexivity].
  intros H. apply (f_equal length) in H. discriminate H.
Qed.

(** C5, amended: two calls of [createImageCollection] with the same name and
    sizes on one factory append the same block of stores (same names, same
    dimensions) twice to the one array of the factory. The collection of the
    first call is returned with the stores the factory had, followed by that
    block; the collection of the second call with the list of the first,
    followed by the block again; and after the second call both collections
    hold that longer list, since they share the array. *)
Theorem createImageCollection_twice_appends_twice
    (k : nat) (f : FactoryObj) (name : string) (sizes : sizes_t) (w : World) :
  factories w !! k = Some f ->
  well_formed sizes = true ->
  exists (c1 : Collection) (w1 : World) (c2 : Collection) (w2 : World),
    createImageCollection k name sizes w = Returned c1 w1
    /\ createImageCollection k name sizes w1 = Returned c2 w2
    /\ collection_stores w1 c1 = stores f ++ plan f name sizes
    /\ collection_stores w2 c2 = collection_stores w1 c1 ++ plan f name sizes
    /\ collection_stores w2 c1 = collection_stores w2 c2
    /\ length (collection_stores w2 c2)
       = (length (stores f) + 2 * S (length sizes))%nat.
Proof.
  intros Hk Hwf. pose proof (lookup_lt_Some _ _ _ Hk) as Hlt.
  pose proof (createImageCollection_returns k f name sizes w Hk Hwf) as H1.
  set (f1 := with_stores f (stores f ++ plan f name sizes)) in H1.
  set (w1 := set_factories (<[k := f1]> (factories w)) w) in H1.
  assert (Hk1 : factories w1 !! k = Some f1).
  { unfold w1. cbn [set_factories factories]. by apply list_lookup_insert_eq. }
  pose proof (createImageCollection_returns k f1 name sizes w1 Hk1 Hwf) as H2.
  assert (Hplan : plan f1 name sizes = plan f name sizes) by reflexivity.
  rewrite Hplan in H2.
  set (f2 := with_stores f1 (stores f1 ++ plan f name sizes)) in H2.
  set (w2 := set_factories (<[k := f2]> (factories w1)) w1) in H2.
  assert (Hk2 : factories w2 !! k = Some f2).
  { unfold w2. cbn [set_factories factories]. apply list_lookup_insert_eq.
    by apply lookup_lt_Some in Hk1. }
  eexists _, w1, _, w2. split; [exact H1 |]. split; [exact H2 |].
  rewrite (collection_stores_at w1 k f1), (collection_stores_at w2 k f2) by assumption.
  repeat split.
  cbn [with_stores stores f1 f2]. rewrite !length_app. unfold plan.
  cbn [length]. rewrite length_map. lia.
Qed.

Lemma createImageCollection_twice_appends_twice_witness :
  let w := final_world
             (ImageCollectionFactory "key" "secret" "photos" JUndefined
                (pristine (fun _ _ => JNull) true false)) in
  exists c1 w1 c2 w2,
    createImageCollection 0 "avatars" [("thumb", DimsArray [50; 50]%Z)] w = Returned c1 w1
    /\ createImageCollection 0 "avatars" [("thumb", DimsArray [50; 50]%Z)] w1 = Returned c2 w2
    /\ length (collection_stores w2 c2) = 4%nat.
Proof.
  cbv zeta.
  destruct (createImageCollection_twice_appends_twice 0
              (mkFactory "https://photos.s3.amazonaws.com/" [] "key" "secret" "photos"
                 "private")
              "avatars" [("thumb", DimsArray [50; 50]%Z)]
              (final_world
                 (ImageCollectionFactory "key" "secret" "photos" JUndefined
                    (pristine (fun _ _ => JNull) true false)))
              eq_refl eq_refl) as (c1 & w1 & c2 & w2 & H1 & H2 & _ & _ & _ & H6).
  exists c1, w1, c2, w2. split; [exact H1 |]. split; [exact H2 |]. exact H6.
Defined.

(** ** The [url] method *)

Lemma fileKey_flat (u : string) (store : jsval) (self : FileRecord) :
  u +:+ fileKey store self
  = u +:+ js_to_string store +:+ "/" +:+ f_collectionName self +:+ "/"
      +:+ f_id self +:+ "-" +:+ f_name self.
Proof. unfold fileKey. by rewrite !append_assoc. Qed.

(** The method of the file package answers at once. *)
Lemma call_url_server (fuel : nat) (self : FileRecord) (opts : jsval) (w : World) :
  call_url (S fuel) ServerMediated self opts w
  = Some (Returned (server_url w self opts) w).
Proof. reflexivity. Qed.

(** The override, when [_url] is the method of the file package. *)
Lemma call_url_direct (fuel k : nat) (fo : FactoryObj) (self : FileRecord)
    (opts : jsval) (w : World) :
  proto__url w = Some ServerMediated ->
  factories w !! k = Some fo ->
  call_url (S (S fuel)) (DirectToS3 k) self opts w
  = Some (Returned
            (if truthy (server_url w self opts)
             then JStr (bucketUrl fo +:+ fileKey (js_and_get opts "store") self)
             else JNull) w).
Proof.
  intros Hold Hk. cbn [call_url]. rewrite Hold.
  destruct (truthy (server_url w self opts)); [by rewrite Hk | reflexivity].
Qed.

(** No call of [url] changes the world. *)
Lemma call_url_world (fuel : nat) (m : url_method) (self : FileRecord) (opts : jsval)
    (w : World) (r : result jsval) :
  call_url fuel m self opts w = Some r -> final_world r = w.
Proof.
  revert m r. induction fuel as [| fuel IH]; intros m r H; [discriminate |].
  cbn [call_url] in H. destruct m as [| k].
  - by inversion H.
  - destruct (proto__url w) as [old |]; [| by inversion H].
    destruct (call_url fuel old self opts w) as [[v w' | e w'] |] eqn:E;
      [| | discriminate].
    + apply IH in E. cbn [final_world] in E. subst w'.
      destruct (truthy v); [| by inversion H].
      destruct (factories w !! k); by inversion H.
    + apply IH in E. cbn [final_world] in E. subst w'. by inversion H.
Qed.

(** When [_url] is itself an override, which is how a second factory with
    [publicRead] leaves the prototype, the calls never come to an end. *)
Lemma call_url_override_of_override (k' : nat) (self : FileRecord) (opts : jsval)
    (w : World) :
  proto__url w = Some (DirectToS3 k') ->
  forall (fuel k : nat), call_url fuel (DirectToS3 k) self opts w = None.
Proof.
  intros Hold. induction fuel as [| fuel IH]; intros k; [reflexivity |].
  cbn [call_url]. by rewrite Hold, IH.
Qed.

(** C2: let a factory be constructed while [url] is the method of the file
    package. Without [publicRead] (false, or no options), [url] on any file
    and with any options still returns what that method returns, whatever
    the storage status is. With [publicRead], [url] returns [null] while
    that method returns nothing truthy for the file and the options, and
    bucketUrl + store + "/" + collectionName + "/" + id + "-" + name when it
    does, where store is [options.store]. *)
Theorem url_resolution
    (a s b : string) (o : jsval) (self : FileRecord) (opts : jsval) (w : World) :
  proto_url w = ServerMediated ->
  exists (fo : FactoryObj) (w' : World),
    ImageCollectionFactory a s b o w = Returned (length (factories w)) w'
    /\ factories w' !! length (factories w) = Some fo
    /\ (truthy (js_and_get o "publicRead") = false ->
        forall fuel : nat,
          file_url (S fuel) self opts w'
          = Some (Returned (server_url w self opts) w'))
    /\ (truthy (js_and_get o "publicRead") = true ->
        forall fuel : nat,
          file_url (S (S fuel)) self opts w'
          = Some (Returned
                    (if truthy (server_url w self opts)
                     then JStr (bucketUrl fo +:+ js_to_string (js_and_get opts "store")
                                +:+ "/" +:+ f_collectionName self +:+ "/"
                                +:+ f_id self +:+ "-" +:+ f_name self)
                     else JNull) w'))
    /\ (forall (fields : list (string * jsval)) (store : string),
          opts = JObj fields ->
          assoc "store" fields = Some (JStr store) ->
          js_to_string (js_and_get opts "store") = store).
Proof.
  intros Hpristine.
  destruct (ImageCollectionFactory_spec a s b o w)
    as (fo & w' & Hnew & Hfs & _ & _ & _ & _ & _ & _ & Hurl & Hold & Hsrv & _).
  assert (Hk : factories w' !! length (factories w) = Some fo).
  { rewrite Hfs. apply lookup_new_factory. }
  exists fo, w'. split; [exact Hnew |]. split; [exact Hk |]. repeat split.
  - intros Hpriv fuel. unfold file_url. rewrite Hurl, Hpriv, Hpristine.
    by rewrite call_url_server, Hsrv.
  - intros Hpub fuel. unfold file_url. rewrite Hurl, Hpub.
    rewrite Hpub, Hpristine in Hold.
    rewrite (call_url_direct fuel _ fo self opts w' Hold Hk), Hsrv.
    by rewrite fileKey_flat.
  - intros fields store -> Hst. cbn. by rewrite Hst.
Qed.

Lemma url_resolution_witness :
  exists w' : World,
    ImageCollectionFactory "key" "secret" "photos"
      (JObj [("publicRead", JBool true)])
      (pristine (fun self _ => JStr "/cfs/files/avatars/1") true false)
    = Returned 0%nat w'
    /\ file_url 2 (mkFile "1" "face.png" "avatars" 512000 "image/png" "png")
         (JObj [("store", JStr "avatars-thumb")]) w'
       = Some (Returned
                 (JStr "https://photos.s3.amazonaws.com/avatars-thumb/avatars/1-face.png")
                 w').
Proof.
  destruct (url_resolution "key" "secret" "photos" (JObj [("publicRead", JBool true)])
              (mkFile "1" "face.png" "avatars" 512000 "image/png" "png")
              (JObj [("store", JStr "avatars-thumb")])
              (pristine (fun self _ => JStr "/cfs/files/avatars/1") true false)
              eq_refl) as (fo & w' & Hnew & Hk & _ & Hpub & _).
  exists w'. split; [exact Hnew |]. rewrite (Hpub eq_refl 0%nat).
  inversion Hnew. subst w'. inversion Hk. reflexivity.
Defined.

(** C10: under a factory constructed with [publicRead] while [url] was the
    method of the file package, a call of [url] without options, or with
    options that have no [store], on a file for which that method returns
    something truthy, returns bucketUrl + "undefined/" + collectionName +
    "/" + id + "-" + name: a string, neither [null] nor an error. *)
Theorem url_without_store
    (a s b : string) (o : jsval) (self : FileRecord) (opts : jsval) (w : World) :
  proto_url w = ServerMediated ->
  truthy (js_and_get o "publicRead") = true ->
  opts = JUndefined \/ (exists fields, opts = JObj fields /\ assoc "store" fields = None) ->
  truthy (server_url w self opts) = true ->
  exists (fo : FactoryObj) (w' : World),
    ImageCollectionFactory a s b o w = Returned (length (factories w)) w'
    /\ factories w' !! length (factories w) = Some fo
    /\ forall fuel : nat,
         file_url (S (S fuel)) self opts w'
         = Some (Returned
                   (JStr (bucketUrl fo +:+ "undefined/" +:+ f_collectionName self
                          +:+ "/" +:+ f_id self +:+ "-" +:+ f_name self)) w').
Proof.
  intros Hpristine Hpub Hopts Hstored.
  destruct (ImageCollectionFactory_spec a s b o w)
    as (fo & w' & Hnew & Hfs & _ & _ & _ & _ & _ & _ & Hurl & Hold & Hsrv & _).
  assert (Hk : factories w' !! length (factories w) = Some fo).
  { rewrite Hfs. apply lookup_new_factory. }
  exists fo, w'. split; [exact Hnew |]. split; [exact Hk |].
  intros fuel. unfold file_url. rewrite Hurl, Hpub.
  rewrite Hpub, Hpristine in Hold.
  rewrite (call_url_direct fuel _ fo self opts w' Hold Hk), Hsrv, Hstored.
  rewrite fileKey_flat.
  assert (Hstore : js_and_get opts "store" = JUndefined).
  { destruct Hopts as [-> | (fields & -> & Hnone)]; [reflexivity |].
    cbn. by rewrite Hnone. }
  by rewrite Hstore.
Qed.

Lemma url_without_store_witness :
  exists w' : World,
    ImageCollectionFactory "key" "secret" "photos"
      (JObj [("publicRead", JBool true)])
      (pristine (fun self _ => JStr "/cfs/files/avatars/1") true false)
    = Returned 0%nat w'
    /\ file_url 2 (mkFile "1" "face.png" "avatars" 512000 "image/png" "png")
         (JObj [("auth", JBool false)]) w'
       = Some (Returned
                 (JStr "https://photos.s3.amazonaws.com/undefined/avatars/1-face.png")
                 w').
Proof.
  destruct (url_without_store "key" "secret" "photos" (JObj [("publicRead", JBool true)])
              (mkFile "1" "face.png" "avatars" 512000 "image/png" "png")
              (JObj [("auth", JBool false)])
              (pristine (fun self _ => JStr "/cfs/files/avatars/1") true false)
              eq_refl eq_refl
              (or_intror (ex_intro _ [("auth", JBool false)] (conj eq_refl eq_refl)))
              eq_refl) as (fo & w' & Hnew & Hk & Hurl).
  exists w'. split; [exact Hnew |]. rewrite (Hurl 0%nat).
  inversion Hnew. subst w'. inversion Hk. reflexivity.
Defined.

(** ** The override of the prototype *)

Lemma method_ok_fresh (w : World) (m : url_method) :
  method_ok w m = true -> m <> DirectToS3 (length (factories w)).
Proof.
  destruct m as [| k]; [discriminate |]. cbn [method_ok].
  intros Hlt%Nat.ltb_lt Heq. inversion Heq. lia.
Qed.

(** C9: the constructor installs the override exactly when [publicRead] is
    truthy. If it is, [FS.File.prototype.url] becomes the override of the new
    factory and [_url] the method that was there, so that [url] on every
    file, of whatever collection, runs the override. If it is not, [url] and
    [_url] and the method of the file package are what they were. *)
Theorem url_override_installed_iff_publicRead
    (a s b : string) (o : jsval) (w : World) :
  world_ok w = true ->
  exists w' : World,
    ImageCollectionFactory a s b o w = Returned (length (factories w)) w'
    /\ (proto_url w' = DirectToS3 (length (factories w))
        <-> truthy (js_and_get o "publicRead") = true)
    /\ (truthy (js_and_get o "publicRead") = true ->
        proto__url w' = Some (proto_url w)
        /\ forall (fuel : nat) (self : FileRecord) (opts : jsval),
             file_url fuel self opts w'
             = call_url fuel (DirectToS3 (length (factories w))) self opts w')
    /\ (truthy (js_and_get o "publicRead") = false ->
        proto_url w' = proto_url w
        /\ proto__url w' = proto__url w
        /\ server_url w' = server_url w
        /\ forall (fuel : nat) (self : FileRecord) (opts : jsval),
             file_url fuel self opts w' = call_url fuel (proto_url w) self opts w').
Proof.
  intros Hok. unfold world_ok in Hok. apply andb_prop in Hok as [Hok _].
  destruct (ImageCollectionFactory_spec a s b o w)
    as (fo & w' & Hnew & _ & _ & _ & _ & _ & _ & _ & Hurl & Hold & Hsrv & _).
  exists w'. split; [exact Hnew |].
  unfold file_url. rewrite Hurl, Hold.
  destruct (truthy (js_and_get o "publicRead")); repeat split; try done.
  intros Heq. by apply method_ok_fresh in Hok.
Qed.

Lemma url_override_installed_iff_publicRead_witness :
  exists w' : World,
    ImageCollectionFactory "key" "secret" "photos" (JObj [("publicRead", JBool true)])
      (pristine (fun _ _ => JNull) true false) = Returned 0%nat w'
    /\ proto_url w' = DirectToS3 0
    /\ proto__url w' = Some ServerMediated.
Proof.
  destruct (url_override_installed_iff_publicRead "key" "secret" "photos"
              (JObj [("publicRead", JBool true)])
              (pristine (fun _ _ => JNull) true false) eq_refl)
    as (w' & Hnew & Hiff & Hpub & _).
  exists w'. split; [exact Hnew |]. split.
  - apply Hiff. reflexivity.
  - apply (Hpub eq_refl).
Defined.

(** ** What the calls leave unchanged *)

Section Frame.

Variable R : World -> World -> Prop.
Hypothesis R_frame : frame R.

Lemma frame_refl (w : World) : R w w.
Proof. apply R_frame. Qed.

Lemma frame_trans (w1 w2 w3 : World) : R w1 w2 -> R w2 w3 -> R w1 w3.
Proof. apply R_frame. Qed.

Lemma preserves_ret {A : Type} (a : A) : preserves R (ret a).
Proof. intros w. apply frame_refl. Qed.

Lemma preserves_throw {A : Type} (e : js_error) : preserves R (@throw A e).
Proof. intros w. apply frame_refl. Qed.

Lemma preserves_get_world : preserves R get_world.
Proof. intros w. apply frame_refl. Qed.

Lemma preserves_bind {A B : Type} (m : M A) (k : A -> M B) :
  preserves R m -> (forall a, preserves R (k a)) -> preserves R (bind m k).
Proof.
  intros Hm Hk w. unfold bind. specialize (Hm w).
  destruct (m w) as [a w' | e w']; cbn [final_world] in *; [| exact Hm].
  eapply frame_trans; [exact Hm | apply Hk].
Qed.

Lemma preserves_perform (e : effect) : preserves R (perform e).
Proof. intros w. apply R_frame. Qed.

Lemma preserves_the_factory (k : nat) : preserves R (the_factory k).
Proof.
  intros w. unfold the_factory. destruct (factories w !! k); apply frame_refl.
Qed.

Lemma preserves_stores_push (k : nat) (s : StoreDefinition) :
  preserves R (stores_push k s).
Proof.
  intros w. unfold stores_push, bind, the_factory.
  destruct (factories w !! k) as [g |] eqn:Hk; [| apply frame_refl].
  cbn [modify final_world]. by apply R_frame.
Qed.

Lemma preserves_index (d : dimensions) (i : nat) : preserves R (index d i).
Proof. destruct d; intros w; apply frame_refl. Qed.

Lemma preserves_each_size (k : nat) (f : FactoryObj) (name : string)
    (entry : string * dimensions) : preserves R (each_size k f name entry).
Proof.
  destruct entry as [sizeName dims]. unfold each_size.
  apply preserves_bind; [apply preserves_index | intros x].
  apply preserves_bind; [apply preserves_index | intros y].
  apply preserves_stores_push.
Qed.

Lemma preserves_each {A : Type} (f : A -> M unit) (l : list A) :
  (forall a, preserves R (f a)) -> preserves R (each f l).
Proof.
  intros Hf. induction l as [| a l IH]; cbn [each]; [apply preserves_ret |].
  apply preserves_bind; [apply Hf | by intros _].
Qed.

Lemma preserves_createImageCollection (k : nat) (name : string) (sizes : sizes_t) :
  preserves R (createImageCollection k name sizes).
Proof.
  unfold createImageCollection.
  apply preserves_bind; [apply preserves_the_factory | intros f].
  apply preserves_bind; [apply preserves_stores_push | intros _].
  apply preserves_bind; [| intros _; apply preserves_ret].
  apply preserves_each. apply preserves_each_size.
Qed.

Lemma preserves_transformWrite (t : TransformWrite) (fileObj : FileRecord)
    (r d : stream) : preserves R (transformWrite t fileObj r d).
Proof.
  unfold transformWrite. apply preserves_bind; [apply preserves_get_world | intros w].
  destruct (gm_isAvailable w); apply preserves_perform.
Qed.

Lemma preserves_image_onInvalid (message : string) :
  preserves R (image_onInvalid message).
Proof.
  unfold image_onInvalid. apply preserves_bind; [apply preserves_get_world | intros w].
  destruct (Meteor_isClient w); apply preserves_perform.
Qed.

Lemma preserves_required (options : easy_options) (name : string) :
  preserves R (required options name).
Proof.
  destruct options as [| | fields]; cbn [required]; try apply preserves_throw.
  destruct (assoc name fields) as [[v |] |];
    [apply preserves_ret | apply preserves_throw | apply preserves_throw].
Qed.

Lemma preserves_EasyImages_configure (options : easy_options) :
  preserves R (EasyImages_configure options).
Proof.
  unfold EasyImages_configure. apply preserves_bind.
  - apply preserves_required.
  - intros f w. apply R_frame.
Qed.

Lemma preserves_EasyImages_bucketUrl : preserves R EasyImages_bucketUrl.
Proof.
  unfold EasyImages_bucketUrl. apply preserves_bind; [apply preserves_get_world | intros w].
  destruct (easy_imageCollectionFactory w); [| apply preserves_throw].
  apply preserves_bind; [apply preserves_the_factory | intros f; apply preserves_ret].
Qed.

(** Every call but the constructor, which is not a step of this kind. *)
Lemma run_api_preserves (c : api_call) (w : World) :
  (forall a s b o, c <> NewFactory a s b o) -> R w (run_api c w).
Proof.
  intros Hc. destruct c; cbn [run_api].
  - by destruct (Hc accessKeyId secretAccessKey bucketName options).
  - apply preserves_createImageCollection.
  - apply preserves_transformWrite.
  - apply preserves_image_onInvalid.
  - destruct (file_url fuel self options w) as [r |] eqn:E; [| apply frame_refl].
    apply call_url_world in E. rewrite E. apply frame_refl.
  - apply preserves_EasyImages_configure.
  - apply preserves_EasyImages_bucketUrl.
Qed.

End Frame.

(** ** The bucket URL *)

Lemma urls_kept_same_factories (w w' : World) :
  factories w' = factories w -> urls_kept w w'.
Proof. intros H k u. unfold bucketUrl_of. by rewrite H. Qed.

Lemma urls_kept_frame : frame urls_kept.
Proof.
  repeat split.
  - by intros w k u.
  - intros w1 w2 w3 H12 H23 k u Hk. by apply H23, H12.
  - intros e w. by apply urls_kept_same_factories.
  - intros w k g s Hk j u. unfold bucketUrl_of. cbn [set_factories factories].
    destruct (decide (k = j)) as [-> | Hne].
    + rewrite Hk, list_lookup_insert_eq by (by apply lookup_lt_Some in Hk). done.
    + by rewrite list_lookup_insert_ne.
  - intros o w. by apply urls_kept_same_factories.
Qed.

Lemma urls_kept_ImageCollectionFactory (a s b : string) (o : jsval) :
  preserves urls_kept (ImageCollectionFactory a s b o).
Proof.
  intros w. destruct (ImageCollectionFactory_spec a s b o w) as (fo & w' & -> & Hfs & _).
  intros k u. unfold bucketUrl_of. cbn [final_world]. rewrite Hfs.
  destruct (factories w !! k) as [g |] eqn:Hk; [| discriminate].
  by rewrite (lookup_app_l_Some _ _ _ _ Hk).
Qed.

Lemma run_api_keeps (c : api_call) (w : World) : urls_kept w (run_api c w).
Proof.
  destruct c as [a s b o | | | | | |];
    [apply urls_kept_ImageCollectionFactory | ..];
    apply (run_api_preserves urls_kept urls_kept_frame); discriminate.
Qed.

Lemma run_apis_keep (cs : list api_call) (w : World) : urls_kept w (run_apis cs w).
Proof.
  revert w. induction cs as [| c cs IH]; intros w; [by intros k u |].
  cbn [run_apis fold_left]. intros k u Hk. apply IH. by apply run_api_keeps.
Qed.

(** C8: the [bucketUrl] of a new factory is "https://" + bucketName +
    ".s3.amazonaws.com/" when the region is empty (or not given), and
    "https://" + bucketName + "-" + region + ".s3.amazonaws.com/" when it is
    not; and it is still that after any sequence of calls of the
    constructor, [createImageCollection], a transform, [onInvalid], [url],
    and [configure] and [bucketUrl] of [EasyImages]. *)
Theorem bucketUrl_format_and_immutable
    (a s b : string) (o : jsval) (region : string) (w : World) :
  js_or (js_and_get o "bucketRegion") (JStr "") = JStr region ->
  exists w' : World,
    ImageCollectionFactory a s b o w = Returned (length (factories w)) w'
    /\ forall calls : list api_call,
         bucketUrl_of (run_apis calls w') (length (factories w))
         = Some (if String.eqb region ""
                 then "https://" +:+ b +:+ ".s3.amazonaws.com/"
                 else "https://" +:+ b +:+ "-" +:+ region +:+ ".s3.amazonaws.com/").
Proof.
  intros Hregion.
  destruct (ImageCollectionFactory_spec a s b o w)
    as (fo & w' & Hnew & Hfs & _ & Hurl & _).
  exists w'. split; [exact Hnew |]. intros calls.
  apply (run_apis_keep calls w'). unfold bucketUrl_of.
  rewrite Hfs, lookup_new_factory. cbn [fmap option_fmap option_map].
  f_equal. rewrite Hurl, Hregion. cbn [truthy].
  destruct (String.eqb_spec region "") as [-> | Hne]; cbn [negb]; unfold js_concat;
    cbn [js_to_string].
  - by rewrite !append_assoc.
  - by rewrite !append_assoc.
Qed.

Lemma bucketUrl_format_and_immutable_witness :
  exists w' : World,
    ImageCollectionFactory "key" "secret" "photos"
      (JObj [("bucketRegion", JStr "eu-west-1")])
      (pristine (fun _ _ => JNull) true false) = Returned 0%nat w'
    /\ bucketUrl_of
         (run_apis [CreateImageCollection 0 "avatars" [("thumb", DimsArray [50; 50]%Z)];
                    NewFactory "key" "secret" "other" (JObj [("publicRead", JBool true)])]
            w') 0
       = Some "https://photos-eu-west-1.s3.amazonaws.com/".
Proof.
  destruct (bucketUrl_format_and_immutable "key" "secret" "photos"
              (JObj [("bucketRegion", JStr "eu-west-1")]) "eu-west-1"
              (pristine (fun _ _ => JNull) true false) eq_refl) as (w' & Hnew & Hurl).
  exists w'. split; [exact Hnew |]. apply Hurl.
Defined.

(** ** Worlds that can be reached *)

Lemma proto_kept_frame : frame proto_kept.
Proof.
  unfold frame, proto_kept. split; [done |]. split; [| split; [done |]; split; [| done]].
  - intros w1 w2 w3 (H1 & H2 & H3) (H4 & H5 & H6). repeat split; congruence.
  - intros w k g s Hk. repeat split. cbn [set_factories factories].
    by rewrite length_insert.
Qed.

Lemma world_ok_kept (w w' : World) :
  proto_kept w w' -> world_ok w = true -> world_ok w' = true.
Proof.
  intros (Hu & Ho & Hl). unfold world_ok, method_ok. by rewrite Hu, Ho, Hl.
Qed.

Lemma method_ok_grows (w w' : World) (m : url_method) :
  length (factories w) <= length (factories w') ->
  method_ok w m = true -> method_ok w' m = true.
Proof.
  destruct m as [| k]; [done |]. cbn [method_ok]. rewrite !Nat.ltb_lt. lia.
Qed.

Lemma world_ok_ImageCollectionFactory (a s b : string) (o : jsval) (w : World) :
  world_ok w = true -> world_ok (final_world (ImageCollectionFactory a s b o w)) = true.
Proof.
  intros Hok. unfold world_ok in Hok. apply andb_prop in Hok as [Hu Ho].
  destruct (ImageCollectionFactory_spec a s b o w)
    as (fo & w' & -> & Hfs & _ & _ & _ & _ & _ & _ & Hurl & Hold & _).
  cbn [final_world].
  assert (Hlen : length (factories w') = S (length (factories w))).
  { rewrite Hfs, length_app. cbn [length]. lia. }
  unfold world_ok. rewrite Hurl, Hold.
  destruct (truthy (js_and_get o "publicRead")).
  - apply andb_true_intro. split.
    + cbn [method_ok]. apply Nat.ltb_lt. lia.
    + apply (method_ok_grows w); [lia | exact Hu].
  - apply andb_true_intro. split.
    + apply (method_ok_grows w); [lia | exact Hu].
    + destruct (proto__url w) as [m |]; [| done].
      apply (method_ok_grows w); [lia | exact Ho].
Qed.

(** The methods on the prototype refer to factories that exist, in a world
    where nothing has run and after every call. *)
Lemma world_ok_pristine (srv : FileRecord -> jsval -> jsval) (gm client : bool) :
  world_ok (pristine srv gm client) = true.
Proof. reflexivity. Qed.

Lemma world_ok_run_api (c : api_call) (w : World) :
  world_ok w = true -> world_ok (run_api c w) = true.
Proof.
  destruct c as [a s b o | | | | | |];
    [apply world_ok_ImageCollectionFactory | ..];
    apply world_ok_kept, (run_api_preserves proto_kept proto_kept_frame); discriminate.
Qed.

Lemma world_ok_run_apis (cs : list api_call) (w : World) :
  world_ok w = true -> world_ok (run_apis cs w) = true.
Proof.
  revert w. induction cs as [| c cs IH]; intros w Hok; [exact Hok |].
  cbn [run_apis fold_left]. by apply IH, world_ok_run_api.
Qed.

(** ** The upload filter *)

Lemma glob_literal (c : ascii) (p s : string) :
  Ascii.eqb c "*" = false ->
  glob (String c p) s
  = match s with
    | EmptyString => false
    | String d s' => Ascii.eqb c d && glob p s'
    end.
Proof. intros Hc. cbn [glob]. by rewrite Hc. Qed.

Lemma glob_star (s : string) : glob "*" s = true.
Proof.
  induction s as [| c s IH]; [reflexivity |].
  change (glob "*" (String c s)) with (glob "" (String c s) || glob "*" s).
  by rewrite IH, orb_true_r.
Qed.

Lemma glob_image (s : string) :
  glob "image/*" s = true <-> exists rest, s = "image/" +:+ rest.
Proof.
  split.
  - intros H.
    do 6 (rewrite glob_literal in H by reflexivity;
          destruct s as [| ? s]; [discriminate |];
          apply andb_prop in H as [?%Ascii.eqb_eq H]; subst).
    by exists s.
  - intros [rest ->].
    change ("image/" +:+ rest)
      with (String "i" (String "m" (String "a" (String "g" (String "e" (String "/" rest)))))).
    do 6 (rewrite glob_literal by reflexivity; rewrite Ascii.eqb_refl, andb_true_l).
    apply glob_star.
Qed.

Lemma existsb_eqb_In (x : string) (l : list string) :
  existsb (String.eqb x) l = true <-> In x l.
Proof.
  rewrite existsb_exists. split.
  - intros (y & Hy & ->%String.eqb_eq). exact Hy.
  - intros Hx. exists x. split; [exact Hx | apply String.eqb_refl].
Qed.

Lemma createImageCollection_collection (k : nat) (name : string) (sizes : sizes_t)
    (w w' : World) (c : Collection) :
  createImageCollection k name sizes w = Returned c w' ->
  c = mkCollection name k image_filter.
Proof.
  unfold createImageCollection, bind, ret.
  destruct (the_factory k w) as [f w1 | e w1]; [| discriminate].
  destruct (stores_push k (original_store f name) w1) as [[] w2 | e w2]; [| discriminate].
  destruct (each (each_size k f name) sizes w2) as [[] w3 | e w3]; [| discriminate].
  by inversion 1.
Qed.

Lemma image_onInvalid_once (message : string) (w : World) :
  image_onInvalid message w
  = Returned tt
      (add_effect (if Meteor_isClient w then Alert message else ConsoleWarn message) w).
Proof.
  unfold image_onInvalid, bind, get_world. by destruct (Meteor_isClient w).
Qed.

(** The filter of the code on one file. *)
Lemma accept_image_filter (file : FileRecord) (w : World) :
  exists (b : bool) (w' : World),
    accept image_filter file w = Returned b w'
    /\ (b = true <-> acceptable file)
    /\ (b = true -> w' = w)
    /\ (b = false ->
        exists msg : string,
          w' = add_effect (if Meteor_isClient w then Alert msg else ConsoleWarn msg) w).
Proof.
  unfold accept, acceptable.
  cbn [image_filter maxSize allow_contentTypes allow_extensions onInvalid].
  change (existsb (fun p => glob p (f_type file)) ["image/*"])
    with (glob "image/*" (f_type file) || false).
  rewrite orb_false_r. change MAX_FILE_SIZE with 10485760%Z.
  destruct (Z.ltb_spec 10485760 (f_size file)) as [Hbig | Hsmall].
  { exists false. eexists. unfold bind. rewrite image_onInvalid_once.
    unfold ret. split; [reflexivity |]. split; [| split].
    - split; [discriminate | intros (Hle & _); lia].
    - discriminate.
    - intros _. by eexists. }
  destruct (glob "image/*" (f_type file)) eqn:Htype; cbn [negb].
  2:{ exists false. eexists. unfold bind. rewrite image_onInvalid_once.
      unfold ret. split; [reflexivity |]. split; [| split].
      - split; [discriminate |]. intros (_ & Hty%glob_image & _). congruence.
      - discriminate.
      - intros _. by eexists. }
  destruct (existsb (String.eqb (lower (f_extension file))) ["png"; "jpg"; "jpeg"; "gif"])
    eqn:Hext; cbn [negb].
  2:{ exists false. eexists. unfold bind. rewrite image_onInvalid_once.
      unfold ret. split; [reflexivity |]. split; [| split].
      - split; [discriminate |]. intros (_ & _ & Hin%existsb_eqb_In). congruence.
      - discriminate.
      - intros _. by eexists. }
  exists true, w. unfold ret. split; [reflexivity |]. split; [| split].
  - split; [| reflexivity]. intros _. split; [exact Hsmall |].
    split; [by apply glob_image | by apply existsb_eqb_In].
  - done.
  - discriminate.
Qed.

(** C3: for a collection made by [createImageCollection], the filter accepts
    a file exactly when its size is at most 10 MiB (10485760 bytes, that
    size included), its content type is [image/] followed by anything, and
    its extension, in lower case, is one of png, jpg, jpeg and gif. An
    accepted file causes no call of [onInvalid] and goes to the stores of the
    collection; a rejected file causes exactly one call of [onInvalid], which
    alerts on the client and warns on the server, and goes to no store. *)
Theorem upload_filter_policy
    (k : nat) (name : string) (sizes : sizes_t) (w0 w1 : World) (c : Collection)
    (file : FileRecord) (w : World) :
  createImageCollection k name sizes w0 = Returned c w1 ->
  exists (b : bool) (w' : World),
    accept (c_filter c) file w = Returned b w'
    /\ (b = true <-> acceptable file)
    /\ (b = true -> w' = w /\ upload c file w = Returned (collection_stores w c) w)
    /\ (b = false ->
        (exists msg : string,
           w' = add_effect (if Meteor_isClient w then Alert msg else ConsoleWarn msg) w)
        /\ upload c file w = Returned [] w').
Proof.
  intros Hc. apply createImageCollection_collection in Hc. subst c.
  unfold upload. cbn [c_filter].
  destruct (accept_image_filter file w) as (b & w' & Hacc & Hiff & Htrue & Hfalse).
  exists b, w'. split; [exact Hacc |]. split; [exact Hiff |].
  unfold bind. rewrite Hacc. split.
  - intros ->. rewrite (Htrue eq_refl). by split.
  - intros ->. split; [by apply Hfalse | reflexivity].
Qed.

Lemma upload_filter_policy_witness :
  let w := final_world
             (ImageCollectionFactory "key" "secret" "photos" JUndefined
                (pristine (fun _ _ => JNull) true false)) in
  exists c w1,
    createImageCollection 0 "avatars" [("thumb", DimsArray [50; 50]%Z)] w = Returned c w1
    /\ exists b w',
         accept (c_filter c) (mkFile "2" "big.png" "avatars" 10485761 "image/png" "png") w1
         = Returned b w'
         /\ (b = true
             <-> acceptable (mkFile "2" "big.png" "avatars" 10485761 "image/png" "png")).
Proof.
  cbv zeta. eexists _, _. split; [reflexivity |].
  destruct (upload_filter_policy 0 "avatars" [("thumb", DimsArray [50; 50]%Z)]
              (final_world
                 (ImageCollectionFactory "key" "secret" "photos" JUndefined
                    (pristine (fun _ _ => JNull) true false)))
              _ _ (mkFile "2" "big.png" "avatars" 10485761 "image/png" "png")
              (final_world
                 (createImageCollection 0 "avatars" [("thumb", DimsArray [50; 50]%Z)]
                    (final_world
                       (ImageCollectionFactory "key" "secret" "photos" JUndefined
                          (pristine (fun _ _ => JNull) true false)))))
              eq_refl) as (b & w' & Hacc & Hiff & _).
  exists b, w'. split; [exact Hacc | exact Hiff].
Defined.

(** ** The write-time transform *)

Lemma transformWrite_available (t : TransformWrite) (fileObj : FileRecord)
    (r d : stream) (w : World) :
  gm_isAvailable w = true ->
  transformWrite t fileObj r d w
  = Returned tt
      (add_effect (GmStreamPipe r FileNameMethod (gm_chain (tw_x t) (tw_y t)) d) w).
Proof. intros Hgm. unfold transformWrite, bind, get_world. by rewrite Hgm. Qed.

Lemma transformWrite_unavailable (t : TransformWrite) (fileObj : FileRecord)
    (r d : stream) (w : World) :
  gm_isAvailable w = false ->
  transformWrite t fileObj r d w
  = Returned tt (add_effect (ConsoleWarn "GraphicsMagick/ImageMagick not available") w).
Proof. intros Hgm. unfold transformWrite, bind, get_world. by rewrite Hgm. Qed.

(** C7: when [gm] is not available, the transform of any variant store
    returns normally, having done one thing only: a warning on the console.
    It starts no [gm] chain and pipes nothing to the destination stream, the
    source stream included. The original store has no transform, and its
    write path pipes the source to the destination as it does when [gm] is
    available. *)
Theorem transformWrite_without_gm
    (f : FactoryObj) (name : string) (entry : string * dimensions)
    (fileObj : FileRecord) (r d : stream) (w : World) :
  gm_isAvailable w = false ->
  (exists t : TransformWrite,
     s_transformWrite (planned_store f name entry) = Some t
     /\ transformWrite t fileObj r d w
        = Returned tt
            (add_effect (ConsoleWarn "GraphicsMagick/ImageMagick not available") w))
  /\ store_write (planned_store f name entry) fileObj r d w
     = Returned tt
         (add_effect (ConsoleWarn "GraphicsMagick/ImageMagick not available") w)
  /\ List.filter (writes_to d)
       (effects (final_world (store_write (planned_store f name entry) fileObj r d w)))
     = List.filter (writes_to d) (effects w)
  /\ s_transformWrite (original_store f name) = None
  /\ store_write (original_store f name) fileObj r d w
     = Returned tt (add_effect (Pipe r d) w).
Proof.
  intros Hgm.
  assert (Ht : exists t, s_transformWrite (planned_store f name entry) = Some t).
  { destruct entry as [sizeName [elems | |]]; by eexists. }
  destruct Ht as [t Ht].
  assert (Hw : store_write (planned_store f name entry) fileObj r d w
               = Returned tt
                   (add_effect (ConsoleWarn "GraphicsMagick/ImageMagick not available") w)).
  { unfold store_write. rewrite Ht. by apply transformWrite_unavailable. }
  split; [exists t; split; [exact Ht | by apply transformWrite_unavailable] |].
  split; [exact Hw |]. split; [| split; reflexivity].
  rewrite Hw. cbn [final_world add_effect effects].
  rewrite List.filter_app. cbn [List.filter writes_to]. by rewrite app_nil_r.
Qed.

Lemma transformWrite_without_gm_witness :
  store_write
    (planned_store
       (mkFactory "https://photos.s3.amazonaws.com/" [] "key" "secret" "photos" "private")
       "avatars" ("thumb", DimsArray [50; 50]%Z))
    (mkFile "1" "face.png" "avatars" 512000 "image/png" "png") (Stream 0) (Stream 1)
    (pristine (fun _ _ => JNull) false false)
  = Returned tt
      (add_effect (ConsoleWarn "GraphicsMagick/ImageMagick not available")
         (pristine (fun _ _ => JNull) false false)).
Proof.
  apply (transformWrite_without_gm
           (mkFactory "https://photos.s3.amazonaws.com/" [] "key" "secret" "photos"
              "private")
           "avatars" ("thumb", DimsArray [50; 50]%Z)
           (mkFile "1" "face.png" "avatars" 512000 "image/png" "png")
           (Stream 0) (Stream 1) (pristine (fun _ _ => JNull) false false) eq_refl).
Defined.

(** The tool on pictures meets the contract that the next section assumes
    of an image tool. *)
Lemma resize_fill_covers (x y : Z) (size : Z * Z) :
  (0 < x)%Z -> (0 < y)%Z -> (0 < size.1)%Z -> (0 < size.2)%Z ->
  covers (x, y) (resize_fill x y size).
Proof.
  destruct size as [iw ih]. cbn [fst snd]. intros Hx Hy Hw Hh.
  unfold resize_fill, covers, round_div. cbn [fst snd].
  destruct (Z.leb_spec (y * iw) (x * ih)) as [Hle | Hgt]; cbn [fst snd].
  - split; [lia |]. apply Z.div_le_lower_bound; nia.
  - split; [| lia]. apply Z.div_le_lower_bound; nia.
Qed.

Lemma size_apply_resize_covers (x y : Z) (p : picture) :
  (0 < x)%Z -> (0 < y)%Z -> (0 < (p_size p).1)%Z -> (0 < (p_size p).2)%Z ->
  covers (x, y) (p_size (size_apply (Resize (Some x) (Some y) "^") p)).
Proof.
  intros Hx Hy Hw Hh. cbn [size_apply String.eqb Ascii.eqb Bool.eqb p_size].
  by apply resize_fill_covers.
Qed.

Lemma size_apply_crop_exact (x y : Z) (p : picture) :
  covers (x, y) (p_size p) -> p_size (size_apply (Crop (Some x) (Some y)) p) = (x, y).
Proof.
  destruct p as [[iw ih] o]. unfold covers. cbn [fst snd size_apply p_size].
  intros [Hx Hy]. f_equal; lia.
Qed.

Lemma size_apply_keeps_orientation (op : gm_op) (p : picture) :
  op <> AutoOrient -> p_orientation (size_apply op p) = p_orientation p.
Proof.
  intros Hop. destruct op as [[x |] [y |] opt | g | [x |] [y |] | q |]; try done.
  cbn [size_apply]. by destruct (String.eqb opt "^").
Qed.


Section GmContract.

(** What the image tool does to an image, as far as the size of the frame
    and the EXIF orientation go. *)
Variable image : Type.
Variable size_of : image -> Z * Z.
Variable orientation_of : image -> Z.
Variable gm_apply : gm_op -> image -> image.

(** [resize(x, y, "^")] of an image that is not empty gives one that covers
    the box. *)
Hypothesis resize_covers :
  forall (x y : Z) (img : image),
    (0 < x)%Z -> (0 < y)%Z -> (0 < (size_of img).1)%Z -> (0 < (size_of img).2)%Z ->
    covers (x, y) (size_of (gm_apply (Resize (Some x) (Some y) "^") img)).

(** [crop(x, y)] of an image that covers the box gives the box. *)
Hypothesis crop_exact :
  forall (x y : Z) (img : image),
    covers (x, y) (size_of img) ->
    size_of (gm_apply (Crop (Some x) (Some y)) img) = (x, y).

(** [gravity] and [quality] keep the size. *)
Hypothesis gravity_keeps_size :
  forall (g : string) (img : image), size_of (gm_apply (Gravity g) img) = size_of img.
Hypothesis quality_keeps_size :
  forall (q : Z) (img : image), size_of (gm_apply (Quality q) img) = size_of img.

(** Every call but [autoOrient] keeps the orientation. *)
Hypothesis others_keep_orientation :
  forall (op : gm_op) (img : image),
    op <> AutoOrient -> orientation_of (gm_apply op img) = orientation_of img.

(** [autoOrient] turns the frame upright: it exchanges width and height when
    the orientation says that the frame lies on its side, and keeps them
    otherwise. *)
Hypothesis autoOrient_turns :
  forall img : image,
    size_of (gm_apply AutoOrient img)
    = if transposing (orientation_of img) then transpose (size_of img) else size_of img.


End GmContract.


(** ** More on the stores *)

Lemma In_plan (f : FactoryObj) (name : string) (sizes : sizes_t) (st : StoreDefinition) :
  In st (plan f name sizes) ->
  st = original_store f name \/ exists entry, In entry sizes /\ st = planned_store f name entry.
Proof.
  unfold plan. intros [<- | Hin]; [by left | right].
  apply in_map_iff in Hin as (entry & <- & Hin). by exists entry.
Qed.

Lemma planned_store_name (f : FactoryObj) (name : string) (entry : string * dimensions) :
  s_name (planned_store f name entry) = (name +:+ "-") +:+ entry.1.
Proof. unfold planned_store. by destruct entry.2. Qed.

Lemma plan_names (f : FactoryObj) (name : string) (sizes : sizes_t) :
  map s_name (plan f name sizes)
  = String.append (name +:+ "-") <$> ("original" :: map fst sizes).
Proof.
  unfold plan. cbn [map fmap list_fmap]. f_equal.
  - cbn [original_store s_name]. by rewrite append_assoc.
  - induction sizes as [| entry sizes IH]; [reflexivity |].
    cbn [map fmap list_fmap]. by rewrite planned_store_name, IH.
Qed.

(** X1: every store of a collection made on a new factory carries the bucket
    name and the two credentials given to the constructor, has its own name
    as folder, and has the ACL [public-read] when [publicRead] is truthy and
    [private] otherwise. *)
Theorem stores_carry_factory_settings
    (a s b : string) (o : jsval) (name : string) (sizes : sizes_t) (w : World) :
  well_formed sizes = true ->
  exists (w1 : World) (c : Collection) (w2 : World),
    ImageCollectionFactory a s b o w = Returned (length (factories w)) w1
    /\ createImageCollection (length (factories w)) name sizes w1 = Returned c w2
    /\ forall st : StoreDefinition,
         In st (collection_stores w2 c) ->
         s_bucket st = b
         /\ s_accessKeyId st = a
         /\ s_secretAccessKey st = s
         /\ s_folder st = s_name st
         /\ s_ACL st
            = (if truthy (js_and_get o "publicRead") then "public-read" else "private").
Proof.
  intros Hwf.
  destruct (ImageCollectionFactory_spec a s b o w)
    as (fo & w1 & Hnew & Hfs & Hst & _ & Hacl & Hb & Ha & Hs & _).
  assert (Hk : factories w1 !! length (factories w) = Some fo).
  { rewrite Hfs. apply lookup_new_factory. }
  pose proof (createImageCollection_returns _ _ name _ _ Hk Hwf) as Hc.
  pose proof (lookup_lt_Some _ _ _ Hk) as Hlt.
  eexists w1, _, _. split; [exact Hnew |]. split; [exact Hc |].
  rewrite collection_stores_after by exact Hlt.
  cbn [with_stores stores]. rewrite Hst, app_nil_l.
  intros st [-> | (entry & _ & ->)]%In_plan.
  - cbn [original_store s_bucket s_accessKeyId s_secretAccessKey s_folder s_name s_ACL].
    by rewrite Hb, Ha, Hs, Hacl.
  - unfold planned_store.
    destruct entry.2;
      cbn [size_store s_bucket s_accessKeyId s_secretAccessKey s_folder s_name s_ACL];
      by rewrite Hb, Ha, Hs, Hacl.
Qed.

Lemma stores_carry_factory_settings_witness :
  exists (w1 : World) (c : Collection) (w2 : World),
    ImageCollectionFactory "key" "secret" "photos" (JObj [("publicRead", JStr "yes")])
      (pristine (fun _ _ => JNull) true false) = Returned 0%nat w1
    /\ createImageCollection 0 "avatars" [("thumb", DimsArray [50; 50]%Z)] w1
       = Returned c w2
    /\ forall st : StoreDefinition,
         In st (collection_stores w2 c) ->
         s_bucket st = "photos" /\ s_ACL st = "public-read".
Proof.
  destruct (stores_carry_factory_settings "key" "secret" "photos"
              (JObj [("publicRead", JStr "yes")]) "avatars"
              [("thumb", DimsArray [50; 50]%Z)]
              (pristine (fun _ _ => JNull) true false) eq_refl)
    as (w1 & c & w2 & Hnew & Hc & Hall).
  exists w1, c, w2. split; [exact Hnew |]. split; [exact Hc |].
  intros st Hin. destruct (Hall st Hin) as (Hb & _ & _ & _ & Hacl). by split.
Defined.

(** X2: the stores that a call appends to an empty [stores] array have
    pairwise distinct names exactly when the keys of [sizes] are pairwise
    distinct and none of them is [original]. *)
Theorem store_names_distinct_iff
    (k : nat) (f : FactoryObj) (name : string) (sizes : sizes_t) (w : World) :
  factories w !! k = Some f ->
  stores f = [] ->
  well_formed sizes = true ->
  exists (c : Collection) (w' : World),
    createImageCollection k name sizes w = Returned c w'
    /\ (NoDup (map s_name (collection_stores w' c))
        <-> NoDup (map fst sizes) /\ ~ In "original" (map fst sizes)).
Proof.
  intros Hk Hempty Hwf. pose proof (lookup_lt_Some _ _ _ Hk) as Hlt.
  eexists _, _. split; [by apply createImageCollection_returns |].
  rewrite collection_stores_after by exact Hlt.
  cbn [with_stores stores]. rewrite Hempty, app_nil_l, plan_names.
  rewrite (NoDup_fmap (String.append (name +:+ "-"))).
  rewrite NoDup_cons, list_elem_of_In. tauto.
Qed.

Lemma store_names_distinct_iff_witness :
  exists (c : Collection) (w' : World),
    createImageCollection 0 "avatars"
      [("thumb", DimsArray [50; 50]%Z); ("original", DimsArray [90; 90]%Z)]
      (final_world
         (ImageCollectionFactory "key" "secret" "photos" JUndefined
            (pristine (fun _ _ => JNull) true false)))
    = Returned c w'
    /\ ~ NoDup (map s_name (collection_stores w' c)).
Proof.
  destruct (store_names_distinct_iff 0
              (mkFactory "https://photos.s3.amazonaws.com/" [] "key" "secret" "photos"
                 "private")
              "avatars"
              [("thumb", DimsArray [50; 50]%Z); ("original", DimsArray [90; 90]%Z)]
              (final_world
                 (ImageCollectionFactory "key" "secret" "photos" JUndefined
                    (pristine (fun _ _ => JNull) true false)))
              eq_refl eq_refl eq_refl) as (c & w' & Hc & Hiff).
  exists c, w'. split; [exact Hc |].
  intros Hnd. apply Hiff in Hnd as [_ Hno]. apply Hno. cbn. tauto.
Defined.

(** X3: two collections made on one factory share its [stores] array. The
    second is returned with the stores of the first followed by its own, and
    from then on the first collection holds the stores of the second as
    well, whatever the two names and sizes are. *)
Theorem collections_share_stores
    (k : nat) (f : FactoryObj) (name1 name2 : string) (sizes1 sizes2 : sizes_t)
    (w : World) :
  factories w !! k = Some f ->
  well_formed sizes1 = true ->
  well_formed sizes2 = true ->
  exists (c1 : Collection) (w1 : World) (c2 : Collection) (w2 : World),
    createImageCollection k name1 sizes1 w = Returned c1 w1
    /\ createImageCollection k name2 sizes2 w1 = Returned c2 w2
    /\ collection_stores w1 c1 = stores f ++ plan f name1 sizes1
    /\ collection_stores w2 c2
       = stores f ++ plan f name1 sizes1 ++ plan f name2 sizes2
    /\ collection_stores w2 c1 = collection_stores w2 c2.
Proof.
  intros Hk Hwf1 Hwf2.
  pose proof (createImageCollection_returns k f name1 sizes1 w Hk Hwf1) as H1.
  set (f1 := with_stores f (stores f ++ plan f name1 sizes1)) in H1.
  set (w1 := set_factories (<[k := f1]> (factories w)) w) in H1.
  assert (Hk1 : factories w1 !! k = Some f1).
  { unfold w1. cbn [set_factories factories]. apply list_lookup_insert_eq.
    by apply lookup_lt_Some in Hk. }
  pose proof (createImageCollection_returns k f1 name2 sizes2 w1 Hk1 Hwf2) as H2.
  change (plan f1 name2 sizes2) with (plan f name2 sizes2) in H2.
  set (f2 := with_stores f1 (stores f1 ++ plan f name2 sizes2)) in H2.
  set (w2 := set_factories (<[k := f2]> (factories w1)) w1) in H2.
  assert (Hk2 : factories w2 !! k = Some f2).
  { unfold w2. cbn [set_factories factories]. apply list_lookup_insert_eq.
    by apply lookup_lt_Some in Hk1. }
  eexists _, w1, _, w2. split; [exact H1 |]. split; [exact H2 |].
  rewrite (collection_stores_at w1 k f1), !(collection_stores_at w2 k f2) by assumption.
  repeat split. cbn [f1 f2 with_stores stores]. by rewrite <- app_assoc.
Qed.

Lemma collections_share_stores_witness :
  exists c1 w1 c2 w2,
    createImageCollection 0 "avatars" [("thumb", DimsArray [50; 50]%Z)]
      (final_world
         (ImageCollectionFactory "key" "secret" "photos" JUndefined
            (pristine (fun _ _ => JNull) true false)))
    = Returned c1 w1
    /\ createImageCollection 0 "banners" [] w1 = Returned c2 w2
    /\ map s_name (collection_stores w2 c1)
       = ["avatars-original"; "avatars-thumb"; "banners-original"].
Proof.
  destruct (collections_share_stores 0
              (mkFactory "https://photos.s3.amazonaws.com/" [] "key" "secret" "photos"
                 "private")
              "avatars" "banners" [("thumb", DimsArray [50; 50]%Z)] []
              (final_world
                 (ImageCollectionFactory "key" "secret" "photos" JUndefined
                    (pristine (fun _ _ => JNull) true false)))
              eq_refl eq_refl eq_refl)
    as (c1 & w1 & c2 & w2 & H1 & H2 & _ & H4 & H5).
  exists c1, w1, c2, w2. split; [exact H1 |]. split; [exact H2 |].
  rewrite H5, H4. reflexivity.
Defined.

Section Grow.

Variable k : nat.

Lemma grow_refl (w : World) : only_stores_grow k w w.
Proof.
  repeat split; try done. intros g Hg. exists [].
  by rewrite app_nil_r, with_stores_id.
Qed.

Lemma grow_trans (w1 w2 w3 : World) :
  only_stores_grow k w1 w2 -> only_stores_grow k w2 w3 -> only_stores_grow k w1 w3.
Proof.
  intros (A1 & A2 & A3 & A4 & A5 & A6 & A7 & A8 & A9 & A10)
         (B1 & B2 & B3 & B4 & B5 & B6 & B7 & B8 & B9 & B10).
  repeat split; try congruence.
  - intros j Hj. by rewrite B9, A9.
  - intros g Hg. destruct (A10 g Hg) as [more1 H1].
    destruct (B10 _ H1) as [more2 H2]. exists (more1 ++ more2).
    rewrite H2. cbn [with_stores stores bucketUrl fo_accessKeyId fo_secretAccessKey
                     fo_bucketName fo_acl].
    by rewrite <- app_assoc.
Qed.

Lemma grow_bind {A B : Type} (m : M A) (h : A -> M B) :
  preserves (only_stores_grow k) m ->
  (forall a, preserves (only_stores_grow k) (h a)) ->
  preserves (only_stores_grow k) (bind m h).
Proof.
  intros Hm Hh w. unfold bind. specialize (Hm w).
  destruct (m w) as [a w' | e w']; cbn [final_world] in *; [| exact Hm].
  eapply grow_trans; [exact Hm | apply Hh].
Qed.

Lemma grow_stores_push (s : StoreDefinition) :
  preserves (only_stores_grow k) (stores_push k s).
Proof.
  intros w. unfold stores_push, bind, the_factory.
  destruct (factories w !! k) as [g |] eqn:Hk; [| apply grow_refl].
  cbn [modify final_world]. repeat split; cbn [set_factories factories]; try done.
  - by rewrite length_insert.
  - intros j Hj. by rewrite list_lookup_insert_ne.
  - intros g' Hg'. exists [s]. rewrite Hk in Hg'. inversion Hg'. subst g'.
    apply list_lookup_insert_eq. by apply lookup_lt_Some in Hk.
Qed.

Lemma grow_each_size (f : FactoryObj) (name : string) (entry : string * dimensions) :
  preserves (only_stores_grow k) (each_size k f name entry).
Proof.
  destruct entry as [sizeName dims]. unfold each_size.
  apply grow_bind; [destruct dims; intros w; apply grow_refl | intros x].
  apply grow_bind; [destruct dims; intros w; apply grow_refl | intros y].
  apply grow_stores_push.
Qed.

Lemma grow_createImageCollection (name : string) (sizes : sizes_t) :
  preserves (only_stores_grow k) (createImageCollection k name sizes).
Proof.
  unfold createImageCollection.
  apply grow_bind; [| intros f].
  { intros w. unfold the_factory. destruct (factories w !! k); apply grow_refl. }
  apply grow_bind; [apply grow_stores_push | intros _].
  apply grow_bind; [| intros _ w; apply grow_refl].
  induction sizes as [| entry rest IH]; cbn [each]; [intros w; apply grow_refl |].
  apply grow_bind; [apply grow_each_size | by intros _].
Qed.

(** X4: a call of [createImageCollection], whether it returns or throws,
    changes nothing but the [stores] array of its own factory, and that
    array only by adding at its end: the prototype, what was done to the
    outside, the configuration of [EasyImages], the other factories and the
    other fields of the factory are what they were. *)
Theorem createImageCollection_only_grows_stores
    (name : string) (sizes : sizes_t) (w : World) :
  only_stores_grow k w (final_world (createImageCollection k name sizes w)).
Proof. apply grow_createImageCollection. Qed.

End Grow.

(** ** More on the [url] method *)

(** X5: once two factories have been constructed with [publicRead], no call
    of [url] returns. The second constructor saves the override of the first
    as [_url]; the override calls [_url], which is that override, which
    calls [_url] again, without end. *)
Theorem url_after_two_public_factories
    (a1 s1 b1 : string) (o1 : jsval) (a2 s2 b2 : string) (o2 : jsval) (w : World) :
  truthy (js_and_get o1 "publicRead") = true ->
  truthy (js_and_get o2 "publicRead") = true ->
  exists (w1 w2 : World),
    ImageCollectionFactory a1 s1 b1 o1 w = Returned (length (factories w)) w1
    /\ ImageCollectionFactory a2 s2 b2 o2 w1 = Returned (length (factories w1)) w2
    /\ forall (fuel : nat) (self : FileRecord) (opts : jsval),
         file_url fuel self opts w2 = None.
Proof.
  intros Hpub1 Hpub2.
  destruct (ImageCollectionFactory_spec a1 s1 b1 o1 w)
    as (fo1 & w1 & Hnew1 & _ & _ & _ & _ & _ & _ & _ & Hurl1 & _).
  destruct (ImageCollectionFactory_spec a2 s2 b2 o2 w1)
    as (fo2 & w2 & Hnew2 & _ & _ & _ & _ & _ & _ & _ & Hurl2 & Hold2 & _).
  exists w1, w2. split; [exact Hnew1 |]. split; [exact Hnew2 |].
  intros fuel self opts. unfold file_url.
  rewrite Hpub1 in Hurl1. rewrite Hpub2 in Hurl2, Hold2. rewrite Hurl1 in Hold2.
  rewrite Hurl2. by apply (call_url_override_of_override (length (factories w))).
Qed.

Lemma url_after_two_public_factories_witness :
  exists (w1 w2 : World),
    ImageCollectionFactory "key" "secret" "photos" (JObj [("publicRead", JBool true)])
      (pristine (fun _ _ => JStr "/cfs/files/avatars/1") true false) = Returned 0%nat w1
    /\ ImageCollectionFactory "key" "secret" "videos" (JObj [("publicRead", JBool true)]) w1
       = Returned 1%nat w2
    /\ file_url 1000 (mkFile "1" "face.png" "avatars" 512000 "image/png" "png")
         (JObj [("store", JStr "avatars-thumb")]) w2 = None.
Proof.
  destruct (url_after_two_public_factories "key" "secret" "photos"
              (JObj [("publicRead", JBool true)]) "key" "secret" "videos"
              (JObj [("publicRead", JBool true)])
              (pristine (fun _ _ => JStr "/cfs/files/avatars/1") true false)
              eq_refl eq_refl) as (w1 & w2 & H1 & H2 & Hnone).
  exists w1, w2. split; [exact H1 |]. split; [| apply Hnone].
  inversion H1. subst w1. exact H2.
Defined.

(** X6: the override of a factory with [publicRead] stays in force when a
    factory without [publicRead] is constructed after it: [url] on every
    file, those of the collections of the second factory included, then
    builds its result on the [bucketUrl] of the first factory. *)
Theorem url_after_public_then_private
    (a1 s1 b1 : string) (o1 : jsval) (a2 s2 b2 : string) (o2 : jsval) (w : World) :
  proto_url w = ServerMediated ->
  truthy (js_and_get o1 "publicRead") = true ->
  truthy (js_and_get o2 "publicRead") = false ->
  exists (fo1 : FactoryObj) (w1 w2 : World),
    ImageCollectionFactory a1 s1 b1 o1 w = Returned (length (factories w)) w1
    /\ ImageCollectionFactory a2 s2 b2 o2 w1 = Returned (length (factories w1)) w2
    /\ factories w1 !! length (factories w) = Some fo1
    /\ fo_bucketName fo1 = b1
    /\ forall (fuel : nat) (self : FileRecord) (opts : jsval),
         file_url (S (S fuel)) self opts w2
         = Some (Returned
                   (if truthy (server_url w self opts)
                    then JStr (bucketUrl fo1 +:+ js_to_string (js_and_get opts "store")
                               +:+ "/" +:+ f_collectionName self +:+ "/"
                               +:+ f_id self +:+ "-" +:+ f_name self)
                    else JNull) w2).
Proof.
  intros Hpristine Hpub1 Hpriv2.
  destruct (ImageCollectionFactory_spec a1 s1 b1 o1 w)
    as (fo1 & w1 & Hnew1 & Hfs1 & _ & _ & _ & Hb1 & _ & _ & Hurl1 & Hold1 & Hsrv1 & _).
  destruct (ImageCollectionFactory_spec a2 s2 b2 o2 w1)
    as (fo2 & w2 & Hnew2 & Hfs2 & _ & _ & _ & _ & _ & _ & Hurl2 & Hold2 & Hsrv2 & _).
  assert (Hk1 : factories w1 !! length (factories w) = Some fo1).
  { rewrite Hfs1. apply lookup_new_factory. }
  assert (Hk2 : factories w2 !! length (factories w) = Some fo1).
  { rewrite Hfs2. by apply lookup_app_l_Some. }
  exists fo1, w1, w2. split; [exact Hnew1 |]. split; [exact Hnew2 |].
  split; [exact Hk1 |]. split; [exact Hb1 |].
  intros fuel self opts. unfold file_url.
  rewrite Hpub1 in Hurl1, Hold1. rewrite Hpriv2 in Hurl2, Hold2.
  rewrite Hurl2, Hurl1. rewrite Hold1, Hpristine in Hold2.
  rewrite (call_url_direct fuel _ fo1 self opts w2 Hold2 Hk2), Hsrv2, Hsrv1.
  by rewrite fileKey_flat.
Qed.

Lemma url_after_public_then_private_witness :
  exists (w1 w2 : World),
    ImageCollectionFactory "key" "secret" "photos" (JObj [("publicRead", JBool true)])
      (pristine (fun _ _ => JStr "/cfs/files/docs/7") true false) = Returned 0%nat w1
    /\ ImageCollectionFactory "key" "secret" "vault" JUndefined w1 = Returned 1%nat w2
    /\ file_url 2 (mkFile "7" "scan.png" "docs" 512000 "image/png" "png")
         (JObj [("store", JStr "docs-original")]) w2
       = Some (Returned
                 (JStr "https://photos.s3.amazonaws.com/docs-original/docs/7-scan.png") w2).
Proof.
  destruct (url_after_public_then_private "key" "secret" "photos"
              (JObj [("publicRead", JBool true)]) "key" "secret" "vault" JUndefined
              (pristine (fun _ _ => JStr "/cfs/files/docs/7") true false)
              eq_refl eq_refl eq_refl) as (fo1 & w1 & w2 & H1 & H2 & Hk & _ & Hurl).
  exists w1, w2. split; [exact H1 |].
  inversion H1. subst w1. split; [exact H2 |].
  rewrite (Hurl 0%nat). inversion Hk. reflexivity.
Defined.

(** X7: under a factory constructed with [publicRead] while [url] was the
    method of the file package, a call of [url] with falsy options
    ([undefined], [null], [false] or the empty string) on a file for which
    that method returns something truthy puts the text of the options
    themselves where the store belongs: [url(null)] returns bucketUrl +
    "null/" + collectionName + "/" + id + "-" + name. *)
Theorem url_with_falsy_options
    (a s b : string) (o : jsval) (self : FileRecord) (opts : jsval) (w : World) :
  proto_url w = ServerMediated ->
  truthy (js_and_get o "publicRead") = true ->
  truthy opts = false ->
  truthy (server_url w self opts) = true ->
  exists (fo : FactoryObj) (w' : World),
    ImageCollectionFactory a s b o w = Returned (length (factories w)) w'
    /\ factories w' !! length (factories w) = Some fo
    /\ forall fuel : nat,
         file_url (S (S fuel)) self opts w'
         = Some (Returned
                   (JStr (bucketUrl fo +:+ js_to_string opts +:+ "/"
                          +:+ f_collectionName self +:+ "/" +:+ f_id self
                          +:+ "-" +:+ f_name self)) w').
Proof.
  intros Hpristine Hpub Hfalsy Hstored.
  destruct (ImageCollectionFactory_spec a s b o w)
    as (fo & w' & Hnew & Hfs & _ & _ & _ & _ & _ & _ & Hurl & Hold & Hsrv & _).
  assert (Hk : factories w' !! length (factories w) = Some fo).
  { rewrite Hfs. apply lookup_new_factory. }
  exists fo, w'. split; [exact Hnew |]. split; [exact Hk |].
  intros fuel. unfold file_url. rewrite Hurl, Hpub.
  rewrite Hpub, Hpristine in Hold.
  rewrite (call_url_direct fuel _ fo self opts w' Hold Hk), Hsrv, Hstored.
  rewrite fileKey_flat. unfold js_and_get. by rewrite Hfalsy.
Qed.

Lemma url_with_falsy_options_witness :
  exists w' : World,
    ImageCollectionFactory "key" "secret" "photos" (JObj [("publicRead", JBool true)])
      (pristine (fun _ _ => JStr "/cfs/files/avatars/1") true false) = Returned 0%nat w'
    /\ file_url 2 (mkFile "1" "face.png" "avatars" 512000 "image/png" "png") JNull w'
       = Some (Returned
                 (JStr "https://photos.s3.amazonaws.com/null/avatars/1-face.png") w').
Proof.
  destruct (url_with_falsy_options "key" "secret" "photos"
              (JObj [("publicRead", JBool true)])
              (mkFile "1" "face.png" "avatars" 512000 "image/png" "png") JNull
              (pristine (fun _ _ => JStr "/cfs/files/avatars/1") true false)
              eq_refl eq_refl eq_refl eq_refl) as (fo & w' & Hnew & Hk & Hurl).
  exists w'. split; [exact Hnew |]. rewrite (Hurl 0%nat).
  inversion Hnew. subst w'. inversion Hk. reflexivity.
Defined.

(** ** [EasyImages] *)

Lemma EasyImages_bucketUrl_reads (w : World) (k : nat) (g : FactoryObj) :
  easy_imageCollectionFactory w = Some k ->
  factories w !! k = Some g ->
  EasyImages_bucketUrl w = Returned (bucketUrl g) w.
Proof.
  intros He Hg. unfold EasyImages_bucketUrl, bind, get_world. rewrite He.
  unfold the_factory. by rewrite Hg.
Qed.

(** X8: after [EasyImages.configure] with options that hold a factory,
    [EasyImages.bucketUrl] returns the [bucketUrl] of that factory, and still
    does after a later call of [createImageCollection] on any factory,
    whether that call returns or throws. *)
Theorem EasyImages_configure_then_bucketUrl
    (k : nat) (fo : FactoryObj) (fields : list (string * option nat)) (w : World) :
  factories w !! k = Some fo ->
  assoc "imageCollectionFactory" fields = Some (Some k) ->
  exists w1 : World,
    EasyImages_configure (EasyObject fields) w = Returned tt w1
    /\ EasyImages_bucketUrl w1 = Returned (bucketUrl fo) w1
    /\ forall (j : nat) (name : string) (sizes : sizes_t),
         EasyImages_bucketUrl (final_world (createImageCollection j name sizes w1))
         = Returned (bucketUrl fo) (final_world (createImageCollection j name sizes w1)).
Proof.
  intros Hk Hfield. exists (set_easy (Some k) w). split.
  { unfold EasyImages_configure, bind. cbn [required]. by rewrite Hfield. }
  split; [by apply (EasyImages_bucketUrl_reads _ k) |].
  intros j name sizes.
  destruct (grow_createImageCollection j name sizes (set_easy (Some k) w))
    as (_ & _ & _ & _ & _ & _ & He & _ & Hother & Hsame).
  destruct (decide (k = j)) as [-> | Hne].
  - destruct (Hsame fo Hk) as [more Hmore].
    by rewrite (EasyImages_bucketUrl_reads _ _ _ He Hmore).
  - apply (EasyImages_bucketUrl_reads _ k); [exact He |]. by rewrite Hother.
Qed.

Lemma EasyImages_configure_then_bucketUrl_witness :
  exists w1 : World,
    EasyImages_configure (EasyObject [("imageCollectionFactory", Some 0%nat)])
      (final_world
         (ImageCollectionFactory "key" "secret" "photos" JUndefined
            (pristine (fun _ _ => JNull) true false))) = Returned tt w1
    /\ EasyImages_bucketUrl w1 = Returned "https://photos.s3.amazonaws.com/" w1.
Proof.
  destruct (EasyImages_configure_then_bucketUrl 0
              (mkFactory "https://photos.s3.amazonaws.com/" [] "key" "secret" "photos"
                 "private")
              [("imageCollectionFactory", Some 0%nat)]
              (final_world
                 (ImageCollectionFactory "key" "secret" "photos" JUndefined
                    (pristine (fun _ _ => JNull) true false)))
              eq_refl eq_refl) as (w1 & Hconf & Hurl & _).
  exists w1. split; [exact Hconf | exact Hurl].
Defined.

(** One call of [configure]: with a factory it records it, and without one
    it throws and leaves the world as it was. *)
Lemma EasyImages_configure_world (options : easy_options) (w : World) :
  final_world (EasyImages_configure options w)
  = match supplied options with
    | Some k => set_easy (Some k) w
    | None => w
    end.
Proof.
  unfold EasyImages_configure, bind, supplied.
  destruct options as [| | fields]; cbn [required]; try reflexivity.
  by destruct (assoc "imageCollectionFactory" fields) as [[k |] |].
Qed.

Lemma run_apis_cons (c : api_call) (cs : list api_call) (w : World) :
  run_apis (c :: cs) w = run_apis cs (run_api c w).
Proof. reflexivity. Qed.

Lemma last_supplied_cons (options : easy_options) (calls : list easy_options)
    (before : option nat) :
  last_supplied (options :: calls) before
  = last_supplied calls
      (match supplied options with
       | Some k => Some k
       | None => before
       end).
Proof. reflexivity. Qed.

Lemma configure_calls_world (calls : list easy_options) (w : World) :
  run_apis (map Configure calls) w
  = match last_supplied calls (easy_imageCollectionFactory w) with
    | Some k => set_easy (Some k) w
    | None => w
    end
  /\ (last_supplied calls (easy_imageCollectionFactory w) = None ->
      easy_imageCollectionFactory w = None).
Proof.
  revert w. induction calls as [| options calls IH]; intros w.
  - split; [| done]. destruct w as [? ? ? ? ? ? ? [k |]]; reflexivity.
  - cbn [map]. rewrite run_apis_cons, last_supplied_cons. cbn [run_api].
    rewrite EasyImages_configure_world.
    destruct (supplied options) as [k |]; [| apply IH].
    destruct (IH (set_easy (Some k) w)) as [Hw Hnone].
    change (easy_imageCollectionFactory (set_easy (Some k) w)) with (Some k) in Hw, Hnone.
    split.
    + rewrite Hw. destruct (last_supplied calls (Some k)) as [n |]; [reflexivity |].
      by specialize (Hnone eq_refl).
    + intros Hn. by specialize (Hnone Hn).
Qed.

(** X9: after any sequence of [EasyImages.configure] calls, whatever their
    options (none, [null], an object with or without a factory),
    [EasyImages.bucketUrl] returns the [bucketUrl] of the factory that the
    last call with a factory supplied, or of the one configured before when
    no call supplied one, and throws a [TypeError] when there is none at
    all. A call that supplies no factory throws and changes nothing: a
    [TypeError] when the options are [undefined] or [null], and otherwise the
    [Meteor.Error] "Missing required parameter 'imageCollectionFactory' for
    EasyImages configuration". *)
Theorem EasyImages_last_supplied_factory_wins
    (calls : list easy_options) (w : World) :
  (forall (k : nat) (fo : FactoryObj),
     last_supplied calls (easy_imageCollectionFactory w) = Some k ->
     factories w !! k = Some fo ->
     EasyImages_bucketUrl (run_apis (map Configure calls) w)
     = Returned (bucketUrl fo) (run_apis (map Configure calls) w))
  /\ (last_supplied calls (easy_imageCollectionFactory w) = None ->
      exists msg : string,
        EasyImages_bucketUrl (run_apis (map Configure calls) w)
        = Threw (TypeError msg) (run_apis (map Configure calls) w))
  /\ (forall options : easy_options,
        supplied options = None ->
        exists e : js_error,
          EasyImages_configure options w = Threw e w
          /\ match options with
             | EasyObject _ =>
                 e = MeteorError
                       "Missing required parameter 'imageCollectionFactory' for EasyImages configuration"
             | _ => exists msg, e = TypeError msg
             end).
Proof.
  destruct (configure_calls_world calls w) as [Hw Hnone]. rewrite Hw.
  split; [| split].
  - intros k fo Hlast Hk. rewrite Hlast. by apply (EasyImages_bucketUrl_reads _ k).
  - intros Hlast. rewrite Hlast. specialize (Hnone Hlast).
    unfold EasyImages_bucketUrl, bind, get_world. rewrite Hnone. by eexists.
  - intros options Hsup. unfold supplied in Hsup.
    unfold EasyImages_configure, bind.
    destruct options as [| | fields]; cbn [required].
    + eexists. split; [reflexivity | by eexists].
    + eexists. split; [reflexivity | by eexists].
    + destruct (assoc "imageCollectionFactory" fields) as [[k |] |];
        [discriminate | |]; by eexists.
Qed.

Lemma EasyImages_last_supplied_factory_wins_witness :
  let w := final_world
             (ImageCollectionFactory "key" "secret" "photos" JUndefined
                (pristine (fun _ _ => JNull) true false)) in
  let calls := [EasyObject [("imageCollectionFactory", Some 0%nat)]; EasyUndefined;
                EasyObject [("imageCollectionFactory", None)]] in
  EasyImages_bucketUrl (run_apis (map Configure calls) w)
  = Returned "https://photos.s3.amazonaws.com/" (run_apis (map Configure calls) w).
Proof.
  cbv zeta.
  destruct (EasyImages_last_supplied_factory_wins
              [EasyObject [("imageCollectionFactory", Some 0%nat)]; EasyUndefined;
               EasyObject [("imageCollectionFactory", None)]]
              (final_world
                 (ImageCollectionFactory "key" "secret" "photos" JUndefined
                    (pristine (fun _ _ => JNull) true false)))) as (Hlast & _).
  apply (Hlast 0%nat
           (mkFactory "https://photos.s3.amazonaws.com/" [] "key" "secret" "photos"
              "private")); reflexivity.
Defined.

(** ** More on the constructor *)

(** X10: what the constructor changes and what it leaves. It adds one
    factory, which has no store yet, after the factories that were there;
    these keep their index and all their fields, so that every collection
    made on them holds the stores it held. Its one effect to the outside is a
    setting of the [Cache-Control] header for GET to [public,
    max-age=31536000]. The configuration of [EasyImages], the method of the
    file package and the two flags stay. [FS.File.prototype] is the one
    thing that exists and may change: with a truthy [publicRead], [url]
    becomes the override of the new factory and [_url] the method that [url]
    was, for every file; otherwise both are what they were. *)
Theorem ImageCollectionFactory_frame
    (a s b : string) (o : jsval) (w : World) :
  exists (fo : FactoryObj) (w' : World),
    ImageCollectionFactory a s b o w = Returned (length (factories w)) w'
    /\ factories w' = factories w ++ [fo]
    /\ stores fo = []
    /\ (forall c : Collection,
          c_stores c < length (factories w) ->
          collection_stores w' c = collection_stores w c)
    /\ easy_imageCollectionFactory w' = easy_imageCollectionFactory w
    /\ server_url w' = server_url w
    /\ gm_isAvailable w' = gm_isAvailable w
    /\ Meteor_isClient w' = Meteor_isClient w
    /\ effects w'
       = effects w ++ [SetHeadersForGet [("Cache-Control", "public, max-age=31536000")]]
    /\ proto_url w'
       = (if truthy (js_and_get o "publicRead")
          then DirectToS3 (length (factories w)) else proto_url w)
    /\ proto__url w'
       = (if truthy (js_and_get o "publicRead")
          then Some (proto_url w) else proto__url w).
Proof.
  destruct (ImageCollectionFactory_spec a s b o w)
    as (fo & w' & Hnew & Hfs & Hst & _ & _ & _ & _ & _ & Hurl & Hold & Hsrv & Hgm & Hcl
        & He & Heff).
  exists fo, w'. split; [exact Hnew |]. split; [exact Hfs |]. split; [exact Hst |].
  split; [| done].
  intros c Hc. unfold collection_stores. rewrite Hfs. by rewrite lookup_app_l.
Qed.

Lemma ImageCollectionFactory_frame_witness :
  let w := final_world
             (createImageCollection 0 "avatars" [("thumb", DimsArray [50; 50]%Z)]
                (final_world
                   (ImageCollectionFactory "key" "secret" "photos" JUndefined
                      (pristine (fun _ _ => JNull) true false)))) in
  exists w' : World,
    ImageCollectionFactory "key" "secret" "videos" (JObj [("publicRead", JBool true)]) w
    = Returned 1%nat w'
    /\ map s_name (collection_stores w' (mkCollection "avatars" 0 image_filter))
       = ["avatars-original"; "avatars-thumb"]
    /\ proto_url w' = DirectToS3 1
    /\ proto__url w' = Some ServerMediated.
Proof.
  cbv zeta.
  destruct (ImageCollectionFactory_frame "key" "secret" "videos"
              (JObj [("publicRead", JBool true)])
              (final_world
                 (createImageCollection 0 "avatars" [("thumb", DimsArray [50; 50]%Z)]
                    (final_world
                       (ImageCollectionFactory "key" "secret" "photos" JUndefined
                          (pristine (fun _ _ => JNull) true false))))))
    as (fo & w' & Hnew & _ & _ & Hcoll & _ & _ & _ & _ & _ & Hurl & Hold).
  exists w'. split; [exact Hnew |]. split; [| split; [exact Hurl | exact Hold]].
  rewrite (Hcoll (mkCollection "avatars" 0 image_filter)); [reflexivity |].
  cbn. lia.
Defined.
